(** * The execution planner of pkg/cluster/actions.go

    A shallow embedding of the action registry, the node selectors, the
    expansion of actions into planned tasks and the sort that orders them,
    followed by the properties of the resulting execution plan. *)

From Stdlib Require Import ZArith Ascii String DecimalString DecimalZ DecimalFacts.
From stdpp Require Import base option list sorting gmap strings.

Local Open Scope Z_scope.

(** ** Collaborators declared outside actions.go *)

(** Modelled from the spec: [nodeReplica] is declared in another file of the
    package.  The planner reads its [Name] field and calls its
    [ProvisioningOrder()] method, an integer rank derived from the role; the
    rank is kept as a field so that any ranking can be supplied. *)
Record nodeReplica := {
  Name : string;
  ProvisioningOrder : Z;
}.

(** [replicaList] is a slice of node pointers; a nil slice and an empty slice
    both range over nothing and are both the empty list here. *)
Abbreviation replicaList := (list nodeReplica).

(** Modelled from the spec: [derivedConfigData] is declared in another file
    of the package; it is represented by what its seven accessors return.  An
    accessor returning a nil pointer is [None]. *)
Record derivedConfigData := {
  AllReplicas : replicaList;
  ControlPlanes : replicaList;
  BootStrapControlPlane : option nodeReplica;
  SecondaryControlPlanes : replicaList;
  Workers : replicaList;
  ExternalEtcd : option nodeReplica;
  ExternalLoadBalancer : option nodeReplica;
}.

(** A Go [error] value: [None] is nil. *)
Definition error := option string.

(** What a call produces: a value, a returned error, or a run-time panic
    (an index out of range). *)
Inductive outcome (A : Type) : Type :=
  | Ok (a : A)
  | Err (msg : string)
  | Panic.
Arguments Ok {A} a.
Arguments Err {A} msg.
Arguments Panic {A}.

(** ** fmt.Sprintf *)

(** The [%d] verb: base ten, a leading minus sign for negative numbers. *)
Definition fmt_d (z : Z) : string := NilZero.string_of_int (Z.to_int z).

(** ** Data model of actions.go *)

Section Model.

(** [execContext] is declared elsewhere and only passed through to [Run]. *)
Context {execContext : Type}.

Definition nodeSelector := derivedConfigData → replicaList.

Record task := {
  Description : string;
  TargetNodes : nodeSelector;
  Run : execContext → nodeReplica → error;
}.

(** The [action] interface has the single method [Tasks()]; an action value
    is given by what that method returns. *)
Record action := {
  Tasks : list task;
}.

(** The two indices are Go ints counting positions of slices; no slice is
    long enough for them to wrap around, so they are plain integers. *)
Record plannedTask := {
  Task : task;
  Node : nodeReplica;
  actionIndex : Z;
  taskIndex : Z;
}.

Abbreviation executionPlan := (list plannedTask).

(** ** The registry

    [actionImpls] is a package-level map guarded by a mutex; calls are
    sequential here, so the lock is not represented and the map is threaded
    through a state monad. *)
Abbreviation actionImpls := (gmap string (unit → action)).

Definition Reg (A : Type) : Type := actionImpls → A * actionImpls.

#[local] Instance Reg_ret : MRet Reg := λ A a impls, (a, impls).

#[local] Instance Reg_bind : MBind Reg :=
  λ A B k m impls, let '(a, impls') := m impls in k a impls'.

Definition registerAction (name : string) (actionBuilderFunc : unit → action)
    : Reg unit :=
  λ impls, (tt, <[name := actionBuilderFunc]> impls).

Definition getAction (name : string) : Reg (outcome action) :=
  λ impls,
    match impls !! name with
    | None => (Err ("no Action implementation with name: " +:+ name), impls)
    | Some actionBuilderFunc => (Ok (actionBuilderFunc tt), impls)
    end.

(** ** The sort key *)

Definition ExecutionOrder (p : plannedTask) : string :=
  "Node.ProvisioningOrder: " +:+ fmt_d (ProvisioningOrder (Node p)) +:+
  " - Node.Name: " +:+ Name (Node p) +:+
  " - actionIndex: " +:+ fmt_d (actionIndex p) +:+
  " - taskIndex: " +:+ fmt_d (taskIndex p).

(** ** sort.Interface for executionPlan

    Indexing a slice out of range panics: that is [None]. *)
Definition Len (t : executionPlan) : nat := length t.

Definition Less (t : executionPlan) (i j : nat) : option bool :=
  match t !! i, t !! j with
  | Some a, Some b => Some (String.ltb (ExecutionOrder a) (ExecutionOrder b))
  | _, _ => None
  end.

Definition Swap (t : executionPlan) (i j : nat) : option executionPlan :=
  match t !! j, t !! i with
  | Some b, Some a => Some (<[j := a]> (<[i := b]> t))
  | _, _ => None
  end.

(** ** sort.Sort

    The library routine, in the form it takes on short slices: an insertion
    sort that touches the data only through [Less] and [Swap].  The
    properties below use it through [sort_Sort_spec] alone: it returns a
    permutation of its argument in which no element is [Less] than an
    earlier one.  Between entries of pairwise distinct keys that fixes the
    result ([sorted_plan_unique]).

    Inner loop: [for j := i; j > a && Less(j, j-1); j-- { Swap(j, j-1) }]. *)
Fixpoint insertionSort_inner (t : executionPlan) (a j : nat) (fuel : nat)
    : option executionPlan :=
  match fuel with
  | O => Some t
  | S fuel' =>
      if bool_decide (a < j)%nat then
        match Less t j (j - 1) with
        | None => None
        | Some false => Some t
        | Some true =>
            match Swap t j (j - 1) with
            | None => None
            | Some t' => insertionSort_inner t' a (j - 1) fuel'
            end
        end
      else Some t
  end.

(** Outer loop: [for i := a + 1; i < b; i++]; [fuel] counts the remaining
    iterations. *)
Fixpoint insertionSort_outer (t : executionPlan) (a i : nat) (fuel : nat)
    : option executionPlan :=
  match fuel with
  | O => Some t
  | S fuel' =>
      match insertionSort_inner t a i i with
      | None => None
      | Some t' => insertionSort_outer t' a (S i) fuel'
      end
  end.

Definition insertionSort (t : executionPlan) (a b : nat) : option executionPlan :=
  insertionSort_outer t a (S a) (b - S a).

Definition sort_Sort (t : executionPlan) : option executionPlan :=
  insertionSort t 0 (Len t).

(** ** newExecutionPlan *)

(** The innermost loop: one planned task appended per target node. *)
Definition planNodes (t : task) (i j : Z) (targetNodes : replicaList)
    (plan : executionPlan) : executionPlan :=
  foldl (λ plan n,
           plan ++ [{| Task := t; Node := n; actionIndex := i; taskIndex := j |}])
        plan targetNodes.

(** The loop over [actionImpl.Tasks()], [j] being the index of the head. *)
Fixpoint planTasks (derived : derivedConfigData) (i j : Z) (tasks : list task)
    (plan : executionPlan) : executionPlan :=
  match tasks with
  | [] => plan
  | t :: tasks' =>
      planTasks derived i (j + 1) tasks'
        (planNodes t i j (TargetNodes t derived) plan)
  end.

(** The loop over [actionNames], [i] being the index of the head; a failed
    lookup returns at once. *)
Fixpoint planActions (derived : derivedConfigData) (i : Z)
    (actionNames : list string) (plan : executionPlan)
    : Reg (outcome executionPlan) :=
  match actionNames with
  | [] => mret (Ok plan)
  | name :: actionNames' =>
      r ← getAction name;
      match r with
      | Ok actionImpl =>
          planActions derived (i + 1) actionNames'
            (planTasks derived i 0 (Tasks actionImpl) plan)
      | Err msg => mret (Err msg)
      | Panic => mret Panic
      end
  end.

Definition newExecutionPlan (derived : derivedConfigData)
    (actionNames : list string) : Reg (outcome executionPlan) :=
  r ← planActions derived 0 actionNames [];
  match r with
  | Ok plan =>
      match sort_Sort plan with
      | Some plan' => mret (Ok plan')
      | None => mret Panic
      end
  | Err msg => mret (Err msg)
  | Panic => mret Panic
  end.

(** ** Node selectors *)

Definition selectAllNodes (cfg : derivedConfigData) : replicaList :=
  AllReplicas cfg.

Definition selectControlPlaneNodes (cfg : derivedConfigData) : replicaList :=
  ControlPlanes cfg.

Definition selectBootstrapControlPlaneNode (cfg : derivedConfigData) : replicaList :=
  match BootStrapControlPlane cfg with
  | Some n => [n]
  | None => []
  end.

Definition selectSecondaryControlPlaneNodes (cfg : derivedConfigData) : replicaList :=
  SecondaryControlPlanes cfg.

Definition selectWorkerNodes (cfg : derivedConfigData) : replicaList :=
  Workers cfg.

Definition selectExternalEtcdNode (cfg : derivedConfigData) : replicaList :=
  match ExternalEtcd cfg with
  | Some n => [n]
  | None => []
  end.

Definition selectExternalLoadBalancerNode (cfg : derivedConfigData) : replicaList :=
  match ExternalLoadBalancer cfg with
  | Some n => [n]
  | None => []
  end.

(** ** Vocabulary of the properties *)

(** [a] may stand before [b] in a sorted plan: [b] is not [Less] than [a]. *)
Definition key_le (a b : plannedTask) : Prop :=
  String.ltb (ExecutionOrder b) (ExecutionOrder a) = false.

(** The entry the innermost loop builds. *)
Definition planned (t : task) (i j : Z) (n : nodeReplica) : plannedTask :=
  {| Task := t; Node := n; actionIndex := i; taskIndex := j |}.

(** What the loop over the tasks of one action appends to the plan. *)
Fixpoint expandTasks (derived : derivedConfigData) (i j : Z) (tasks : list task)
    : executionPlan :=
  match tasks with
  | [] => []
  | t :: tasks' =>
      (planned t i j <$> TargetNodes t derived) ++ expandTasks derived i (j + 1) tasks'
  end.

(** What the loop over the action names appends to the plan when every name
    is registered. *)
Fixpoint expandActions (derived : derivedConfigData) (impls : actionImpls) (i : Z)
    (actionNames : list string) : executionPlan :=
  match actionNames with
  | [] => []
  | name :: actionNames' =>
      match impls !! name with
      | Some actionBuilderFunc =>
          expandTasks derived i 0 (Tasks (actionBuilderFunc tt))
          ++ expandActions derived impls (i + 1) actionNames'
      | None => []
      end
  end.

(** Two planning calls in a row. *)
Definition planTwice (derived : derivedConfigData) (actionNames : list string)
    : Reg (outcome executionPlan * outcome executionPlan) :=
  r1 ← newExecutionPlan derived actionNames;
  r2 ← newExecutionPlan derived actionNames;
  mret (r1, r2).

(** A sequence of [registerAction] calls, first to last. *)
Fixpoint registerAll (regs : list (string * (unit → action))) : Reg unit :=
  match regs with
  | [] => mret tt
  | (name, actionBuilderFunc) :: regs' =>
      _ ← registerAction name actionBuilderFunc;
      registerAll regs'
  end.

(** The entry stems from the task at index [j] of the action at index [i]. *)
Definition stems_from (i j : Z) (p : plannedTask) : Prop :=
  actionIndex p = i ∧ taskIndex p = j.

#[global] Instance stems_from_dec i j p : Decision (stems_from i j p).
Proof. unfold stems_from. apply _. Defined.

(** The four components that the sort key lists. *)
Definition components (p : plannedTask) : Z * string * Z * Z :=
  (ProvisioningOrder (Node p), Name (Node p), actionIndex p, taskIndex p).

(** Name and indices, enough to tell the entries of an expansion apart. *)
Definition tag (p : plannedTask) : string * Z * Z :=
  (Name (Node p), actionIndex p, taskIndex p).

(** Priority ordering: an entry of lower rank stands before an entry of
    higher rank. *)
Definition ordered_by_rank (plan : executionPlan) : Prop :=
  ∀ (p q : nat) a b,
    plan !! p = Some a → plan !! q = Some b →
    ProvisioningOrder (Node a) < ProvisioningOrder (Node b) →
    (p < q)%nat.

(** Two ranks that are not negative and whose decimal renderings have the
    same number of digits. *)
Definition same_digits (x y : Z) : Prop :=
  0 ≤ x ∧ 0 ≤ y ∧ String.length (fmt_d x) = String.length (fmt_d y).

(** Priority ordering between ranks that are [comparable]. *)
Definition ordered_by_rank_among (comparable : Z → Z → Prop)
    (plan : executionPlan) : Prop :=
  ∀ (p q : nat) a b,
    plan !! p = Some a → plan !! q = Some b →
    ProvisioningOrder (Node a) < ProvisioningOrder (Node b) →
    comparable (ProvisioningOrder (Node a)) (ProvisioningOrder (Node b)) →
    (p < q)%nat.

(** Action and task order: among the entries of one node, a smaller action
    index stands first, and within one action a smaller task index. *)
Definition ordered_by_index (plan : executionPlan) : Prop :=
  ∀ (p q : nat) a b,
    plan !! p = Some a → plan !! q = Some b →
    Node a = Node b →
    actionIndex a < actionIndex b
    ∨ (actionIndex a = actionIndex b ∧ taskIndex a < taskIndex b) →
    (p < q)%nat.

(** Name tie-break: among entries of equal rank, an entry whose node name
    is smaller in the byte-wise order stands before an entry whose node name
    is greater, for a greater name that satisfies [valid]. *)
Definition ordered_by_name (valid : string → Prop) (plan : executionPlan) : Prop :=
  ∀ (p q : nat) a b,
    plan !! p = Some a → plan !! q = Some b →
    ProvisioningOrder (Node a) = ProvisioningOrder (Node b) →
    String.ltb (Name (Node a)) (Name (Node b)) = true →
    valid (Name (Node b)) →
    (p < q)%nat.

(** Every byte of the string is above the space character. *)
Fixpoint above_space (s : string) : bool :=
  match s with
  | EmptyString => true
  | String c s' => Ascii.ltb " " c && above_space s'
  end.

(** No two entries of the plan agree on the four components, nor on the
    sort key computed from them. *)
Definition distinct_keys (plan : executionPlan) : Prop :=
  ∀ (p q : nat) a b,
    p ≠ q → plan !! p = Some a → plan !! q = Some b →
    components a ≠ components b ∧ ExecutionOrder a ≠ ExecutionOrder b.

(** Every selector of the actions named returns nodes of the topology, none
    more often than the topology lists it. *)
Definition selectors_within (derived : derivedConfigData) (impls : actionImpls)
    (actionNames : list string) : Prop :=
  ∀ name actionBuilderFunc t,
    name ∈ actionNames → impls !! name = Some actionBuilderFunc →
    t ∈ Tasks (actionBuilderFunc tt) →
    TargetNodes t derived ⊆+ AllReplicas derived.

(** The name has a constructor in the registry. *)
Definition registered (impls : actionImpls) (name : string) : Prop :=
  is_Some (impls !! name).

(** The two entries are of one machine as far as the sort key tells: same
    rank and same name. *)
Definition same_machine (a b : plannedTask) : Prop :=
  ProvisioningOrder (Node a) = ProvisioningOrder (Node b)
  ∧ Name (Node a) = Name (Node b).

(** The number of nodes that the tasks of an action select. *)
Definition selectedBy (derived : derivedConfigData) (a : action) : nat :=
  sum_list_with (λ t, length (TargetNodes t derived)) (Tasks a).

(** The number of nodes that the tasks of the named actions select, an
    unregistered name counting for nothing. *)
Definition selectedTotal (derived : derivedConfigData) (impls : actionImpls)
    (actionNames : list string) : nat :=
  sum_list_with
    (λ name, match impls !! name with
             | Some actionBuilderFunc => selectedBy derived (actionBuilderFunc tt)
             | None => 0%nat
             end)
    actionNames.

(** The entry with its action index moved up by [k]. *)
Definition shiftAction (k : Z) (p : plannedTask) : plannedTask :=
  {| Task := Task p; Node := Node p;
     actionIndex := actionIndex p + k; taskIndex := taskIndex p |}.

End Model.

Arguments task : clear implicits.
Arguments action : clear implicits.
Arguments plannedTask : clear implicits.
Arguments Reg : clear implicits.

Abbreviation executionPlan E := (list (plannedTask E)).
Abbreviation actionImpls E := (gmap string (unit → action E)).

(** The bytes of a string. *)
Abbreviation chars := list_ascii_of_string.

(** ** Decimal digits

    The digits of a rendering, most significant first, with their
    characters and their value. *)
Definition digit_char (d : DecimalFacts.digits) : ascii :=
  match d with
  | DecimalFacts.d0 => "0" | DecimalFacts.d1 => "1" | DecimalFacts.d2 => "2"
  | DecimalFacts.d3 => "3" | DecimalFacts.d4 => "4" | DecimalFacts.d5 => "5"
  | DecimalFacts.d6 => "6" | DecimalFacts.d7 => "7" | DecimalFacts.d8 => "8"
  | DecimalFacts.d9 => "9"
  end%char.

Definition digit_val (d : DecimalFacts.digits) : N :=
  match d with
  | DecimalFacts.d0 => 0 | DecimalFacts.d1 => 1 | DecimalFacts.d2 => 2
  | DecimalFacts.d3 => 3 | DecimalFacts.d4 => 4 | DecimalFacts.d5 => 5
  | DecimalFacts.d6 => 6 | DecimalFacts.d7 => 7 | DecimalFacts.d8 => 8
  | DecimalFacts.d9 => 9
  end%N.

Fixpoint digits_string (l : list DecimalFacts.digits) : string :=
  match l with
  | [] => EmptyString
  | d :: l' => String (digit_char d) (digits_string l')
  end.

Fixpoint digits_val (l : list DecimalFacts.digits) (acc : N) : N :=
  match l with
  | [] => acc
  | d :: l' => digits_val l' (10 * acc + digit_val d)%N
  end.

(** ** Sample topologies and registries *)

Module Sample.

Definition mkTask (description : string) (targetNodes : nodeSelector) : task unit :=
  {| Description := description; TargetNodes := targetNodes; Run := λ _ _, None |}.

Definition mkNode (name : string) (order : Z) : nodeReplica :=
  {| Name := name; ProvisioningOrder := order |}.

(** One bootstrap control plane and two workers. *)
Definition node1 := mkNode "node-1" 0.
Definition node2 := mkNode "node-2" 2.
Definition node3 := mkNode "node-3" 2.

Definition cluster : derivedConfigData :=
  {| AllReplicas := [node1; node2; node3];
     ControlPlanes := [node1];
     BootStrapControlPlane := Some node1;
     SecondaryControlPlanes := [];
     Workers := [node2; node3];
     ExternalEtcd := None;
     ExternalLoadBalancer := None |}.

Definition createTask := mkTask "create node" selectAllNodes.
Definition initTask := mkTask "kubeadm init" selectBootstrapControlPlaneNode.
Definition joinTask := mkTask "kubeadm join" selectWorkerNodes.
Definition etcdTask := mkTask "configure etcd" selectExternalEtcdNode.

Definition createAction (_ : unit) : action unit := {| Tasks := [createTask] |}.
Definition initAction (_ : unit) : action unit := {| Tasks := [etcdTask; initTask] |}.
Definition joinAction (_ : unit) : action unit := {| Tasks := [joinTask] |}.

Definition registrations : list (string * (unit → action unit)) :=
  [("create", createAction); ("init", joinAction); ("init", initAction);
   ("join", joinAction)].

Definition createInitJoin : list string := ["create"; "init"; "join"].

(** What the planner returns for [createInitJoin] on [cluster]. *)
Definition clusterPlan : executionPlan unit :=
  [planned createTask 0 0 node1; planned initTask 1 1 node1;
   planned createTask 0 0 node2; planned joinTask 2 0 node2;
   planned createTask 0 0 node3; planned joinTask 2 0 node3].

Definition impls : actionImpls unit := (registerAll registrations ∅).2.

(** [clusterPlan] after the entries at positions 0 and 2 changed places. *)
Definition clusterPlanSwapped : executionPlan unit :=
  [planned createTask 0 0 node2; planned initTask 1 1 node1;
   planned createTask 0 0 node1; planned joinTask 2 0 node2;
   planned createTask 0 0 node3; planned joinTask 2 0 node3].

(** What the planner returns for ["create"] and for ["init"; "join"]. *)
Definition createPlan : executionPlan unit :=
  [planned createTask 0 0 node1; planned createTask 0 0 node2;
   planned createTask 0 0 node3].

Definition initJoinPlan : executionPlan unit :=
  [planned initTask 0 1 node1; planned joinTask 1 0 node2;
   planned joinTask 1 0 node3].

(** A topology whose ranks have one and two decimal digits. *)
Definition balancer := mkNode "kind-lb" 2.
Definition worker := mkNode "kind-worker" 10.

Definition ranked : derivedConfigData :=
  {| AllReplicas := [balancer; worker];
     ControlPlanes := [];
     BootStrapControlPlane := None;
     SecondaryControlPlanes := [];
     Workers := [worker];
     ExternalEtcd := None;
     ExternalLoadBalancer := Some balancer |}.

(** A single node, an action list of eleven names and an action of eleven
    tasks. *)
Definition single : derivedConfigData :=
  {| AllReplicas := [node1];
     ControlPlanes := [node1];
     BootStrapControlPlane := Some node1;
     SecondaryControlPlanes := [];
     Workers := [];
     ExternalEtcd := None;
     ExternalLoadBalancer := None |}.

Definition elevenNames : list string := replicate 11 "create".

Definition elevenTasks (_ : unit) : action unit :=
  {| Tasks := replicate 11 createTask |}.

Definition implsEleven : actionImpls unit :=
  (registerAll [("create", createAction); ("setup", elevenTasks)] ∅).2.

(** What the planner returns for [elevenNames] on [single]. *)
Definition elevenPlan : executionPlan unit :=
  (λ i, planned createTask i 0 node1) <$> [0; 1; 10; 2; 3; 4; 5; 6; 7; 8; 9].

(** Two workers of equal rank, the name of one ending in a space. *)
Definition plain := mkNode "node" 1.
Definition spaced := mkNode "node " 1.

Definition blanks : derivedConfigData :=
  {| AllReplicas := [plain; spaced];
     ControlPlanes := [];
     BootStrapControlPlane := None;
     SecondaryControlPlanes := [];
     Workers := [plain; spaced];
     ExternalEtcd := None;
     ExternalLoadBalancer := None |}.

(** A selector that returns every node twice. *)
Definition selectTwice (cfg : derivedConfigData) : list nodeReplica :=
  AllReplicas cfg ++ AllReplicas cfg.

Definition twiceTask := mkTask "run twice" selectTwice.

Definition implsTwice : actionImpls unit :=
  (registerAll [("twice", λ _, {| Tasks := [twiceTask] |})] ∅).2.

Definition twicePlan : executionPlan unit :=
  [planned twiceTask 0 0 node1; planned twiceTask 0 0 node1].

End Sample.

(** * Properties *)

(** ** The byte-wise order on strings *)

Module StringOrder.

Lemma ascii_compare_refl c : Ascii.compare c c = Eq.
Proof. apply N.compare_refl. Qed.

Lemma ascii_compare_lt_trans a b c :
  Ascii.compare a b = Lt → Ascii.compare b c = Lt → Ascii.compare a c = Lt.
Proof.
  unfold Ascii.compare. rewrite !N.compare_lt_iff. apply N.lt_trans.
Qed.

Lemma compare_refl s : String.compare s s = Eq.
Proof. induction s as [|c s IH]; simpl; [done|]. by rewrite ascii_compare_refl. Qed.

Lemma compare_lt_trans s1 s2 s3 :
  String.compare s1 s2 = Lt → String.compare s2 s3 = Lt →
  String.compare s1 s3 = Lt.
Proof.
  revert s2 s3. induction s1 as [|a s1 IH]; intros [|b s2] [|c s3]; simpl; try done.
  destruct (Ascii.compare a b) eqn:Hab; try done;
    destruct (Ascii.compare b c) eqn:Hbc; try done; intros H1 H2.
  - apply Ascii.compare_eq_iff in Hab, Hbc. subst.
    rewrite ascii_compare_refl. eauto.
  - apply Ascii.compare_eq_iff in Hab. subst. by rewrite Hbc.
  - apply Ascii.compare_eq_iff in Hbc. subst. by rewrite Hab.
  - by rewrite (ascii_compare_lt_trans _ _ _ Hab Hbc).
Qed.

Lemma compare_gt_lt s1 s2 : String.compare s1 s2 = Gt ↔ String.compare s2 s1 = Lt.
Proof.
  rewrite (String.compare_antisym s1 s2).
  destruct (String.compare s2 s1); simpl; split; congruence.
Qed.

Lemma compare_app_head p a b :
  String.compare (p +:+ a) (p +:+ b) = String.compare a b.
Proof. induction p as [|c p IH]; simpl; [done|]. by rewrite ascii_compare_refl. Qed.

Lemma ltb_lt s1 s2 : String.ltb s1 s2 = true ↔ String.compare s1 s2 = Lt.
Proof. unfold String.ltb. destruct (String.compare s1 s2); split; congruence. Qed.

Lemma ltb_irrefl s : String.ltb s s = false.
Proof. unfold String.ltb. by rewrite compare_refl. Qed.

Lemma ltb_trans s1 s2 s3 :
  String.ltb s1 s2 = true → String.ltb s2 s3 = true → String.ltb s1 s3 = true.
Proof. rewrite !ltb_lt. apply compare_lt_trans. Qed.

Lemma ltb_asym s1 s2 : String.ltb s1 s2 = true → String.ltb s2 s1 = false.
Proof.
  intros H12. destruct (String.ltb s2 s1) eqn:H21; [|done].
  pose proof (ltb_trans _ _ _ H12 H21) as H. by rewrite ltb_irrefl in H.
Qed.

Lemma ltb_total s1 s2 :
  String.ltb s1 s2 = true ∨ s1 = s2 ∨ String.ltb s2 s1 = true.
Proof.
  rewrite !ltb_lt. destruct (String.compare s1 s2) eqn:H; [|by left|].
  - right; left. by apply String.compare_eq_iff.
  - right; right. by apply compare_gt_lt.
Qed.

(** Not-less is transitive: [s2 ≤ s1] and [s3 ≤ s2] give [s3 ≤ s1]. *)
Lemma ltb_false_trans s1 s2 s3 :
  String.ltb s1 s2 = false → String.ltb s2 s3 = false → String.ltb s1 s3 = false.
Proof.
  intros H12 H23. destruct (String.ltb s1 s3) eqn:H13; [|done].
  destruct (ltb_total s2 s3) as [H|[->|H]]; [congruence|congruence|].
  destruct (ltb_total s1 s2) as [H'|[->|H']]; [congruence|congruence|].
  pose proof (ltb_trans _ _ _ H H') as H31.
  apply ltb_asym in H31. congruence.
Qed.

Lemma ltb_app_head p a b : String.ltb (p +:+ a) (p +:+ b) = String.ltb a b.
Proof. unfold String.ltb. by rewrite compare_app_head. Qed.

End StringOrder.

(** ** sort.Sort returns a sorted permutation *)

Section Sorting.
Context {execContext : Type}.
Implicit Types (t P R : executionPlan execContext) (x y : plannedTask execContext).

Lemma key_le_refl x : key_le x x.
Proof. apply StringOrder.ltb_irrefl. Qed.

Lemma key_le_trans x y z : key_le x y → key_le y z → key_le x z.
Proof. unfold key_le. intros Hxy Hyz. eapply StringOrder.ltb_false_trans; eauto. Qed.

Lemma key_le_of_lt x y :
  String.ltb (ExecutionOrder x) (ExecutionOrder y) = true → key_le x y.
Proof. apply StringOrder.ltb_asym. Qed.

#[local] Instance key_le_transitive : Transitive (@key_le execContext).
Proof. intros x y z. apply key_le_trans. Qed.

Lemma lookup_adjacent P y x R :
  (P ++ y :: x :: R) !! (S (length P) - 1)%nat = Some y ∧
  (P ++ y :: x :: R) !! S (length P) = Some x.
Proof.
  rewrite Nat.sub_succ, Nat.sub_0_r. split.
  - by rewrite list_lookup_middle.
  - change (P ++ y :: x :: R) with (P ++ [y] ++ x :: R).
    rewrite (assoc_L (++)). apply list_lookup_middle.
    rewrite length_app. simpl. lia.
Qed.

Lemma Less_adjacent P y x R :
  Less (P ++ y :: x :: R) (S (length P)) (S (length P) - 1)
  = Some (String.ltb (ExecutionOrder x) (ExecutionOrder y)).
Proof.
  unfold Less. by destruct (lookup_adjacent P y x R) as [-> ->].
Qed.

Lemma Swap_adjacent P y x R :
  Swap (P ++ y :: x :: R) (S (length P)) (S (length P) - 1)
  = Some (P ++ x :: y :: R).
Proof.
  unfold Swap. destruct (lookup_adjacent P y x R) as [-> ->]. f_equal.
  rewrite Nat.sub_succ, Nat.sub_0_r.
  replace (S (length P)) with (length P + 1)%nat by lia.
  rewrite insert_app_r. simpl.
  replace (length P) with (length P + 0)%nat at 1 by lia.
  by rewrite insert_app_r.
Qed.

Lemma insertionSort_inner_spec fuel P x R :
  (length P ≤ fuel)%nat →
  StronglySorted key_le P →
  ∃ P', insertionSort_inner (P ++ x :: R) 0 (length P) fuel = Some (P' ++ R)
        ∧ P' ≡ₚ P ++ [x] ∧ StronglySorted key_le P'.
Proof.
  revert P R. induction fuel as [|fuel IH]; intros P R Hlen HP.
  { destruct P; [|simpl in Hlen; lia]. exists [x]. simpl.
    repeat split; [done|]. repeat constructor. }
  destruct P as [|y Q _] using rev_ind.
  { exists [x]. simpl. repeat split; [done|]. repeat constructor. }
  rewrite length_app in Hlen. simpl in Hlen.
  apply StronglySorted_app in HP as (HQy & HQ & _).
  rewrite <-(assoc_L (++)). simpl (([y] ++ _)).
  replace (length (Q ++ [y])) with (S (length Q))
    by (rewrite length_app; simpl; lia).
  cbn [insertionSort_inner].
  rewrite bool_decide_eq_true_2 by lia.
  rewrite Less_adjacent.
  destruct (String.ltb (ExecutionOrder x) (ExecutionOrder y)) eqn:Hlt.
  - rewrite Swap_adjacent, Nat.sub_succ, Nat.sub_0_r.
    destruct (IH Q (y :: R)) as (Q' & -> & Hperm & HQ'); [lia|done|].
    exists (Q' ++ [y]). rewrite <-(assoc_L (++)). split; [done|]. split.
    + rewrite Hperm, <-!(assoc_L (++)). apply Permutation_app_head, perm_swap.
    + apply StronglySorted_app_2; [|done|repeat constructor].
      intros e1 e2 He1 ->%list_elem_of_singleton.
      rewrite Hperm in He1. apply elem_of_app in He1 as [He1| ->%list_elem_of_singleton].
      * apply HQy; [done|]. by apply list_elem_of_singleton.
      * by apply key_le_of_lt.
  - exists ((Q ++ [y]) ++ [x]). rewrite <-!(assoc_L (++)). split; [done|].
    split; [done|]. rewrite (assoc_L (++)).
    apply StronglySorted_app_2; [| |repeat constructor].
    + intros e1 e2 He1 ->%list_elem_of_singleton.
      apply elem_of_app in He1 as [He1| ->%list_elem_of_singleton]; [|done].
      apply key_le_trans with y; [|done].
      apply HQy; [done|]. by apply list_elem_of_singleton.
    + apply StronglySorted_app_2; [done..|repeat constructor].
Qed.

Lemma insertionSort_outer_spec fuel P R :
  length R = fuel →
  StronglySorted key_le P →
  ∃ t', insertionSort_outer (P ++ R) 0 (length P) fuel = Some t'
        ∧ t' ≡ₚ P ++ R ∧ StronglySorted key_le t'.
Proof.
  revert P R. induction fuel as [|fuel IH]; intros P R Hlen HP.
  { destruct R; [|done]. exists P. by rewrite (right_id_L [] (++)). }
  destruct R as [|x R]; [done|]. simpl in Hlen.
  cbn [insertionSort_outer].
  destruct (insertionSort_inner_spec (length P) P x R) as (P' & -> & Hperm & HP');
    [done..|].
  assert (S (length P) = length P') as ->.
  { rewrite Hperm, length_app. simpl. lia. }
  destruct (IH P' R) as (t' & -> & Hperm' & Ht'); [lia|done|].
  exists t'. split; [done|]. split; [|done].
  rewrite Hperm', Hperm, <-(assoc_L (++)). done.
Qed.

(** [sort.Sort] never panics, and returns a permutation of the plan in which
    no entry is [Less] than an earlier one. *)
Lemma sort_Sort_spec t :
  ∃ t', sort_Sort t = Some t' ∧ t' ≡ₚ t ∧ StronglySorted key_le t'.
Proof.
  unfold sort_Sort, insertionSort, Len. destruct t as [|x R].
  { exists []. repeat split; [done|]. constructor. }
  simpl length. rewrite Nat.sub_succ, Nat.sub_0_r.
  apply (insertionSort_outer_spec (length R) [x] R); [done|].
  repeat constructor.
Qed.

(** In a sorted plan an entry whose key is strictly smaller stands at a
    smaller position. *)
Lemma sorted_lt_before t p q x y :
  StronglySorted key_le t →
  t !! p = Some x → t !! q = Some y →
  String.ltb (ExecutionOrder x) (ExecutionOrder y) = true →
  (p < q)%nat.
Proof.
  intros Ht Hp Hq Hlt.
  destruct (decide (p < q)%nat) as [|Hge]; [done|exfalso].
  destruct (decide (p = q)) as [->|Hne].
  { rewrite Hp in Hq. injection Hq as ->. by rewrite StringOrder.ltb_irrefl in Hlt. }
  assert (q < p)%nat as Hqp by lia.
  assert (key_le y x) as Hle; [|unfold key_le in Hle; congruence].
  clear Hlt Hge Hne. revert p q Hp Hq Hqp.
  induction Ht as [|z t Ht IH Hz]; intros p q Hp Hq Hqp; [done|].
  destruct p as [|p]; [lia|]. destruct q as [|q]; simpl in *.
  - injection Hq as ->. rewrite Forall_forall in Hz. apply Hz.
    by eapply list_elem_of_lookup_2.
  - eapply IH; eauto. lia.
Qed.

End Sorting.

(** ** The expansion loops *)

Section Expansion.
Context {execContext : Type}.
Implicit Types (plan : executionPlan execContext) (impls : actionImpls execContext).
Implicit Types (e : plannedTask execContext) (tasks : list (task execContext)).
Implicit Types (t : task execContext) (derived : derivedConfigData).

Lemma planNodes_eq t i j targetNodes plan :
  planNodes t i j targetNodes plan = plan ++ (planned t i j <$> targetNodes).
Proof.
  unfold planNodes. revert plan.
  induction targetNodes as [|n ns IH]; intros plan; simpl.
  - by rewrite (right_id_L [] (++)).
  - by rewrite IH, <-(assoc_L (++)).
Qed.

Lemma planTasks_eq derived i j tasks plan :
  planTasks derived i j tasks plan = plan ++ expandTasks derived i j tasks.
Proof.
  revert j plan. induction tasks as [|t ts IH]; intros j plan; simpl.
  - by rewrite (right_id_L [] (++)).
  - by rewrite IH, planNodes_eq, <-(assoc_L (++)).
Qed.

Lemma first_unregistered impls (names : list string) :
  Forall (registered impls) names ∨
  ∃ pre name post, names = pre ++ name :: post
                   ∧ Forall (registered impls) pre ∧ impls !! name = None.
Proof.
  induction names as [|n names IH]; [by left|].
  destruct (impls !! n) as [f|] eqn:Hn.
  - destruct IH as [IH|(pre & name & post & -> & Hpre & Hname)].
    + left. constructor; [by exists f|done].
    + right. exists (n :: pre), name, post. repeat split; [|done].
      constructor; [by exists f|done].
  - right. by exists [], n, names.
Qed.

Lemma planActions_registered derived i names plan impls :
  Forall (registered impls) names →
  planActions derived i names plan impls
  = (Ok (plan ++ expandActions derived impls i names), impls).
Proof.
  intros Hreg. revert i plan.
  induction Hreg as [|n names [f Hf] _ IH]; intros i plan; simpl.
  - by rewrite (right_id_L [] (++)).
  - unfold mbind, Reg_bind, getAction. rewrite Hf.
    by rewrite IH, planTasks_eq, <-(assoc_L (++)).
Qed.

Lemma planActions_unregistered derived i pre name post plan impls :
  Forall (registered impls) pre → impls !! name = None →
  planActions derived i (pre ++ name :: post) plan impls
  = (Err ("no Action implementation with name: " +:+ name), impls).
Proof.
  intros Hreg Hname. revert i plan.
  induction Hreg as [|n names [f Hf] _ IH]; intros i plan; simpl.
  - unfold mbind, Reg_bind, getAction. by rewrite Hname.
  - unfold mbind, Reg_bind, getAction. rewrite Hf. apply IH.
Qed.

(** The planner in terms of the expansion: with every name registered it
    returns the sorted expansion and leaves the registry as it was. *)
Lemma newExecutionPlan_registered derived names impls :
  Forall (registered impls) names →
  ∃ plan, newExecutionPlan derived names impls = (Ok plan, impls)
          ∧ plan ≡ₚ expandActions derived impls 0 names
          ∧ StronglySorted key_le plan.
Proof.
  intros Hreg. unfold newExecutionPlan, mbind, Reg_bind.
  rewrite planActions_registered by done. simpl.
  destruct (sort_Sort_spec (expandActions derived impls 0 names))
    as (plan & -> & Hperm & Hsorted).
  by exists plan.
Qed.

Lemma newExecutionPlan_unregistered derived pre name post impls :
  Forall (registered impls) pre → impls !! name = None →
  newExecutionPlan derived (pre ++ name :: post) impls
  = (Err ("no Action implementation with name: " +:+ name), impls).
Proof.
  intros Hreg Hname. unfold newExecutionPlan, mbind, Reg_bind.
  by rewrite planActions_unregistered.
Qed.

(** The sort indexes the plan within its bounds only, so the outcome of the
    planner is a plan or an error. *)
Lemma newExecutionPlan_no_panic derived names impls :
  (newExecutionPlan derived names impls).1 ≠ Panic.
Proof.
  destruct (first_unregistered impls names)
    as [Hreg|(pre & name & post & -> & Hpre & Hname)].
  - by destruct (newExecutionPlan_registered derived names impls Hreg)
      as (plan & -> & _).
  - by rewrite newExecutionPlan_unregistered.
Qed.

(** A plan is returned only when every name is registered. *)
Lemma newExecutionPlan_Ok_inv derived names impls plan :
  (newExecutionPlan derived names impls).1 = Ok plan →
  Forall (registered impls) names
  ∧ plan ≡ₚ expandActions derived impls 0 names
  ∧ StronglySorted key_le plan.
Proof.
  intros Hplan.
  destruct (first_unregistered impls names)
    as [Hreg|(pre & name & post & -> & Hpre & Hname)].
  - destruct (newExecutionPlan_registered derived names impls Hreg)
      as (plan' & Heq & Hperm & Hsorted).
    rewrite Heq in Hplan. simpl in Hplan. injection Hplan as <-. done.
  - by rewrite newExecutionPlan_unregistered in Hplan.
Qed.

Lemma expandTasks_index derived i j tasks e :
  e ∈ expandTasks derived i j tasks → actionIndex e = i ∧ j ≤ taskIndex e.
Proof.
  revert j. induction tasks as [|t ts IH]; intros j; simpl; [by intros ?%elem_of_nil|].
  intros [He|He]%elem_of_app.
  - apply list_elem_of_fmap in He as (n & -> & _). simpl. lia.
  - apply IH in He. lia.
Qed.

Lemma expandActions_index derived impls i names e :
  e ∈ expandActions derived impls i names → i ≤ actionIndex e.
Proof.
  revert i. induction names as [|n ns IH]; intros i; simpl; [by intros ?%elem_of_nil|].
  destruct (impls !! n) as [f|]; [|by intros ?%elem_of_nil].
  intros [He|He]%elem_of_app.
  - apply expandTasks_index in He. lia.
  - apply IH in He. lia.
Qed.

Lemma filter_none {A} (P : A → Prop) `{!∀ x, Decision (P x)} (l : list A) :
  (∀ x, x ∈ l → ¬ P x) → filter P l = [].
Proof.
  induction l as [|x l IH]; intros Hl; [done|].
  rewrite filter_cons_False by (apply Hl; left).
  apply IH. intros y Hy. apply Hl. by right.
Qed.

Lemma filter_all {A} (P : A → Prop) `{!∀ x, Decision (P x)} (l : list A) :
  (∀ x, x ∈ l → P x) → filter P l = l.
Proof.
  induction l as [|x l IH]; intros Hl; [done|].
  rewrite filter_cons_True by (apply Hl; left).
  f_equal. apply IH. intros y Hy. apply Hl. by right.
Qed.

Lemma filter_expandTasks derived i j tasks (l : nat) t :
  tasks !! l = Some t →
  filter (stems_from i (j + Z.of_nat l)) (expandTasks derived i j tasks)
  = planned t i (j + Z.of_nat l) <$> TargetNodes t derived.
Proof.
  revert j l. induction tasks as [|t0 ts IH]; intros j l Hl; [done|].
  simpl. rewrite filter_app. destruct l as [|l]; simpl in Hl.
  - injection Hl as ->. rewrite Z.add_0_r.
    rewrite filter_all, (filter_none _ (expandTasks _ _ _ _)).
    + by rewrite (right_id_L [] (++)).
    + intros e He%expandTasks_index [_ Hj]. lia.
    + by intros e (n & -> & _)%list_elem_of_fmap.
  - rewrite filter_none.
    + replace (j + Z.of_nat (S l)) with (j + 1 + Z.of_nat l) by lia. by apply IH.
    + intros e (n & -> & _)%list_elem_of_fmap [_ Hj]. simpl in Hj. lia.
Qed.

Lemma filter_expandActions derived impls i names (k : nat) name f j :
  Forall (registered impls) names →
  names !! k = Some name → impls !! name = Some f →
  filter (stems_from (i + Z.of_nat k) j) (expandActions derived impls i names)
  = filter (stems_from (i + Z.of_nat k) j)
      (expandTasks derived (i + Z.of_nat k) 0 (Tasks (f tt))).
Proof.
  intros Hreg. revert i k.
  induction Hreg as [|n ns [f0 Hf0] _ IH]; intros i k Hk Hf; [done|].
  simpl. rewrite Hf0, filter_app. destruct k as [|k]; simpl in Hk.
  - injection Hk as ->. rewrite Hf in Hf0. injection Hf0 as <-.
    rewrite Z.add_0_r, (filter_none _ (expandActions _ _ _ _)).
    + by rewrite (right_id_L [] (++)).
    + intros e He%expandActions_index [Hi _]. lia.
  - rewrite filter_none.
    + replace (i + Z.of_nat (S k)) with (i + 1 + Z.of_nat k) by lia. by apply IH.
    + intros e He%expandTasks_index [Hi _]. lia.
Qed.

End Expansion.

(** ** The planner and the registry *)

Section Planner.
Context {execContext : Type}.
Implicit Types (plan : executionPlan execContext) (impls : actionImpls execContext).
Implicit Types (t : task execContext) (derived cfg : derivedConfigData).

(** C10: with an empty list of action names the planner returns the empty
    plan and no error, whatever the registry holds, and leaves the registry
    as it was. *)
Theorem newExecutionPlan_no_actions derived impls :
  newExecutionPlan derived [] impls = (Ok [], impls).
Proof. reflexivity. Qed.

(** C5: when the list of action names contains a name without a registered
    constructor, the planner returns the error that names the first such
    name of the list, and no plan. *)
Theorem newExecutionPlan_unknown_action derived names impls :
  (∃ n, n ∈ names ∧ impls !! n = None) →
  ∃ pre name post,
    names = pre ++ name :: post
    ∧ Forall (registered impls) pre
    ∧ impls !! name = None
    ∧ newExecutionPlan derived names impls
      = (Err ("no Action implementation with name: " +:+ name), impls)
    ∧ ∀ plan, (newExecutionPlan derived names impls).1 ≠ Ok plan.
Proof.
  intros (n & Hn & Hnone).
  destruct (first_unregistered impls names)
    as [Hreg|(pre & name & post & -> & Hpre & Hname)].
  - rewrite Forall_forall in Hreg. destruct (Hreg n Hn) as [f Hf]. congruence.
  - exists pre, name, post.
    rewrite (newExecutionPlan_unregistered derived pre name post impls) by done.
    done.
Qed.

(** C4: when every action name is registered the planner returns a plan,
    and for the action at position [k] of the list and the task at position
    [l] of that action, the entries of the plan with action index [k] and
    task index [l] are, up to their order, one entry per node that the
    task's selector returns on the topology, each made of that task, that
    node and the two indices; a selector returning no node leaves no such
    entry and no error. *)
Theorem newExecutionPlan_fan_out derived names impls (k l : nat) name f t :
  Forall (registered impls) names →
  names !! k = Some name → impls !! name = Some f → Tasks (f tt) !! l = Some t →
  ∃ plan,
    newExecutionPlan derived names impls = (Ok plan, impls)
    ∧ filter (stems_from (Z.of_nat k) (Z.of_nat l)) plan
      ≡ₚ planned t (Z.of_nat k) (Z.of_nat l) <$> TargetNodes t derived
    ∧ (TargetNodes t derived = [] →
       filter (stems_from (Z.of_nat k) (Z.of_nat l)) plan = []).
Proof.
  intros Hreg Hk Hf Hl.
  destruct (newExecutionPlan_registered derived names impls Hreg)
    as (plan & Hplan & Hperm & _).
  exists plan. split; [done|].
  assert (filter (stems_from (Z.of_nat k) (Z.of_nat l)) plan
          ≡ₚ planned t (Z.of_nat k) (Z.of_nat l) <$> TargetNodes t derived) as H.
  { rewrite Hperm.
    rewrite (filter_expandActions derived impls 0 names k name f) by done.
    rewrite Z.add_0_l.
    by rewrite (filter_expandTasks derived _ 0 (Tasks (f tt)) l t). }
  split; [done|]. intros Hnil. rewrite Hnil in H. by apply Permutation_nil_r.
Qed.

Lemma newExecutionPlan_registry derived names impls :
  (newExecutionPlan derived names impls).2 = impls.
Proof.
  destruct (first_unregistered impls names)
    as [Hreg|(pre & name & post & -> & Hpre & Hname)].
  - by destruct (newExecutionPlan_registered derived names impls Hreg)
      as (plan & -> & _).
  - by rewrite newExecutionPlan_unregistered.
Qed.

Lemma planTwice_eq derived names impls :
  planTwice derived names impls
  = (((newExecutionPlan derived names impls).1,
      (newExecutionPlan derived names impls).1), impls).
Proof.
  unfold planTwice, mbind, Reg_bind, mret, Reg_ret.
  pose proof (newExecutionPlan_registry derived names impls) as Hreg.
  destruct (newExecutionPlan derived names impls) as [r1 impls1] eqn:H1.
  simpl in Hreg. subst impls1. by rewrite H1.
Qed.

Lemma registerAll_lookup regs impls name :
  name ∉ regs.*1 → (registerAll regs impls).2 !! name = impls !! name.
Proof.
  revert impls. induction regs as [|[n f] regs IH]; intros impls Hnot; [done|].
  simpl in *. apply not_elem_of_cons in Hnot as [Hne Hnot].
  unfold mbind, Reg_bind, registerAction.
  rewrite IH by done. by rewrite lookup_insert_ne.
Qed.

Lemma registerAll_app regs1 regs2 impls :
  (registerAll (regs1 ++ regs2) impls).2
  = (registerAll regs2 (registerAll regs1 impls).2).2.
Proof.
  revert impls. induction regs1 as [|[n f] regs1 IH]; intros impls; [done|].
  simpl. unfold mbind, Reg_bind, registerAction. apply IH.
Qed.

(** C8: after any sequence of registrations, looking a name up returns an
    instance built by the constructor of the last registration under that
    name; earlier registrations under the name are overwritten. *)
Theorem getAction_last_registration pre name actionBuilderFunc post impls :
  name ∉ post.*1 →
  (getAction name
     (registerAll (pre ++ (name, actionBuilderFunc) :: post) impls).2).1
  = Ok (actionBuilderFunc tt).
Proof.
  intros Hnot. unfold getAction.
  rewrite registerAll_app. simpl.
  unfold mbind, Reg_bind, registerAction.
  rewrite registerAll_lookup by done.
  by rewrite lookup_insert_eq.
Qed.

(** C9: each of the three single-node selectors returns the one-element
    list of the node its accessor reports, and the empty list when the
    accessor reports none; a selector has no error result. *)
Theorem singleton_selectors cfg :
  selectBootstrapControlPlaneNode cfg
    = match BootStrapControlPlane cfg with Some n => [n] | None => [] end
  ∧ selectExternalEtcdNode cfg
    = match ExternalEtcd cfg with Some n => [n] | None => [] end
  ∧ selectExternalLoadBalancerNode cfg
    = match ExternalLoadBalancer cfg with Some n => [n] | None => [] end.
Proof.
  unfold selectBootstrapControlPlaneNode, selectExternalEtcdNode,
    selectExternalLoadBalancerNode.
  by destruct (BootStrapControlPlane cfg), (ExternalEtcd cfg),
    (ExternalLoadBalancer cfg).
Qed.

End Planner.

(** ** The sort key determines its four components *)

Module KeyFormat.

Lemma chars_app s1 s2 : chars (s1 +:+ s2) = chars s1 ++ chars s2.
Proof. induction s1 as [|c s1 IH]; simpl; [done|]. by rewrite IH. Qed.

Lemma chars_inj s1 s2 : chars s1 = chars s2 → s1 = s2.
Proof.
  intros H. apply (f_equal string_of_list_ascii) in H.
  by rewrite !string_of_list_ascii_of_string in H.
Qed.

(** Two splits of a list at the first occurrence of a separator agree. *)
Lemma split_first_sep (c : ascii) (l1 l2 r1 r2 : list ascii) :
  c ∉ l1 → c ∉ l2 → l1 ++ c :: r1 = l2 ++ c :: r2 → l1 = l2 ∧ r1 = r2.
Proof.
  revert l2. induction l1 as [|x l1 IH]; intros [|y l2] H1 H2 H; simpl in H.
  - by injection H.
  - injection H as -> _. by apply not_elem_of_cons in H2 as [? _].
  - injection H as -> _. by apply not_elem_of_cons in H1 as [? _].
  - injection H as -> H.
    apply not_elem_of_cons in H1 as [_ H1]. apply not_elem_of_cons in H2 as [_ H2].
    destruct (IH l2 H1 H2 H) as [-> ->]. done.
Qed.

(** Two splits of a list at the last occurrence of a separator agree. *)
Lemma split_last_sep (c : ascii) (l1 l2 r1 r2 : list ascii) :
  c ∉ r1 → c ∉ r2 → l1 ++ c :: r1 = l2 ++ c :: r2 → l1 = l2 ∧ r1 = r2.
Proof.
  revert l2. induction l1 as [|x l1 IH]; intros [|y l2] H1 H2 H; simpl in H.
  - by injection H.
  - injection H as _ ->. exfalso. apply H1. apply elem_of_app. right. by left.
  - injection H as _ <-. exfalso. apply H2. apply elem_of_app. right. by left.
  - injection H as -> H. destruct (IH l2 H1 H2 H) as [-> ->]. done.
Qed.

Lemma uint_no_space (u : Decimal.uint) :
  " "%char ∉ chars (NilEmpty.string_of_uint u).
Proof.
  induction u; simpl; [by apply not_elem_of_nil|..];
    (apply not_elem_of_cons; split; [done|assumption]).
Qed.

Lemma fmt_d_no_space z : " "%char ∉ chars (fmt_d z).
Proof.
  unfold fmt_d.
  assert (∀ u, " "%char ∉ chars (NilZero.string_of_uint u)) as Hu.
  { intros u. destruct u; try apply (uint_no_space (_ u)).
    simpl. apply not_elem_of_cons. split; [done|apply not_elem_of_nil]. }
  destruct (Z.to_int z) as [u|u]; simpl; [apply Hu|].
  apply not_elem_of_cons. split; [done|apply Hu].
Qed.

Lemma to_int_nonnil z : Z.to_int z ≠ Decimal.Pos Decimal.Nil ∧ Z.to_int z ≠ Decimal.Neg Decimal.Nil.
Proof.
  destruct z as [|p|p]; simpl; split; try done;
    intros [= H]; by apply (DecimalPos.Unsigned.to_uint_nonnil p).
Qed.

Lemma fmt_d_inj z1 z2 : fmt_d z1 = fmt_d z2 → z1 = z2.
Proof.
  unfold fmt_d. intros H. apply DecimalZ.to_int_inj.
  destruct (to_int_nonnil z1) as [Hp1 Hn1], (to_int_nonnil z2) as [Hp2 Hn2].
  pose proof (NilZero.isi _ Hp1 Hn1) as E1.
  pose proof (NilZero.isi _ Hp2 Hn2) as E2.
  rewrite H in E1. congruence.
Qed.

Section Key.
Context {execContext : Type}.
Implicit Types a b : plannedTask execContext.

#[local] Arguments list_ascii_of_string : simpl never.

(** The four components, as the sort key lists them. *)
Lemma ExecutionOrder_inj a b :
  ExecutionOrder a = ExecutionOrder b →
  ProvisioningOrder (Node a) = ProvisioningOrder (Node b)
  ∧ Name (Node a) = Name (Node b)
  ∧ actionIndex a = actionIndex b
  ∧ taskIndex a = taskIndex b.
Proof.
  intros H. apply (f_equal chars) in H. unfold ExecutionOrder in H.
  rewrite !chars_app in H. apply app_inv_head in H.
  change (chars " - Node.Name: ") with (" "%char :: chars "- Node.Name: ") in H.
  apply split_first_sep in H as [Ho H]; [|apply fmt_d_no_space..].
  apply app_inv_head in H.
  assert (∀ N Di Dj : list ascii,
    N ++ chars " - actionIndex: " ++ Di ++ chars " - taskIndex: " ++ Dj
    = (N ++ chars " - actionIndex: " ++ Di ++ chars " - taskIndex:")
      ++ " "%char :: Dj) as E.
  { intros. by rewrite <-!(assoc_L (++)). }
  rewrite !E in H. clear E.
  apply split_last_sep in H as [H Hj]; [|apply fmt_d_no_space..].
  rewrite !(assoc_L (++)) in H. apply app_inv_tail in H.
  assert (∀ N Di : list ascii,
    (N ++ chars " - actionIndex: ") ++ Di
    = (N ++ chars " - actionIndex:") ++ " "%char :: Di) as E.
  { intros. by rewrite <-!(assoc_L (++)). }
  rewrite !E in H. clear E.
  apply split_last_sep in H as [H Hi]; [|apply fmt_d_no_space..].
  apply app_inv_tail in H.
  apply chars_inj, fmt_d_inj in Ho, Hi, Hj. apply chars_inj in H. done.
Qed.

End Key.

End KeyFormat.

(** ** The order of the plan *)

Section Order.
Context {execContext : Type}.
Implicit Types (plan : executionPlan execContext) (impls : actionImpls execContext).
Implicit Types (a b e : plannedTask execContext) (derived : derivedConfigData).

Lemma above_space_compare (s1 s2 r1 r2 : string) :
  String.compare s1 s2 = Lt → above_space s2 = true →
  String.compare (s1 +:+ String " " r1) (s2 +:+ r2) = Lt.
Proof.
  revert s2. induction s1 as [|x s1 IH]; intros [|c s2]; simpl; try done.
  - intros _ [Hc _]%andb_prop. unfold Ascii.ltb in Hc.
    by destruct (Ascii.compare " " c).
  - intros Hlt [_ Hb]%andb_prop.
    destruct (Ascii.compare x c); [by apply IH|done|done].
Qed.

Lemma ExecutionOrder_lt_name a b :
  ProvisioningOrder (Node a) = ProvisioningOrder (Node b) →
  String.ltb (Name (Node a)) (Name (Node b)) = true →
  above_space (Name (Node b)) = true →
  String.ltb (ExecutionOrder a) (ExecutionOrder b) = true.
Proof.
  intros Ho Hlt Hvalid. unfold ExecutionOrder.
  rewrite Ho, !StringOrder.ltb_app_head.
  apply StringOrder.ltb_lt. apply StringOrder.ltb_lt in Hlt.
  by apply (above_space_compare _ _ ("- actionIndex: " +:+ _)).
Qed.

(** C3, amended: in a plan that the planner returns, among entries of
    equal rank, an entry whose node name is smaller in the byte-wise order
    stands before an entry whose node name is greater, provided every byte
    of the greater name is above the space character. *)
Theorem newExecutionPlan_name_tie_break derived names impls plan :
  (newExecutionPlan derived names impls).1 = Ok plan →
  ordered_by_name (λ name, above_space name = true) plan.
Proof.
  intros (_ & _ & Hsorted)%newExecutionPlan_Ok_inv p q a b Hp Hq Ho Hlt Hvalid.
  eapply sorted_lt_before; eauto using ExecutionOrder_lt_name.
Qed.

Lemma submseteq_NoDup {A} (l k : list A) : l ⊆+ k → NoDup k → NoDup l.
Proof.
  intros [k' Hk]%submseteq_Permutation Hnd. rewrite Hk in Hnd.
  by apply NoDup_app in Hnd as [? _].
Qed.

Lemma NoDup_expandTasks derived i j (tasks : list (task execContext)) :
  (∀ t, t ∈ tasks → NoDup (Name <$> TargetNodes t derived)) →
  NoDup (tag <$> expandTasks derived i j tasks).
Proof.
  revert j. induction tasks as [|t ts IH]; intros j Hsel; simpl; [constructor|].
  rewrite fmap_app. apply NoDup_app. split; [|split].
  - assert (tag <$> (planned t i j <$> TargetNodes t derived)
            = (λ name, (name, i, j)) <$> (Name <$> TargetNodes t derived)) as ->.
    { by rewrite <-!list_fmap_compose. }
    apply NoDup_fmap_2.
    + by intros ?? [=].
    + apply Hsel. by left.
  - intros x (e1 & -> & (n & -> & _)%list_elem_of_fmap)%list_elem_of_fmap
             (e2 & Heq & He2%expandTasks_index)%list_elem_of_fmap.
    unfold tag in Heq. simpl in Heq. injection Heq as _ _ Hj. lia.
  - apply IH. intros t' Ht'. apply Hsel. by right.
Qed.

Lemma NoDup_expandActions derived impls i names :
  (∀ name f t, name ∈ names → impls !! name = Some f → t ∈ Tasks (f tt) →
     NoDup (Name <$> TargetNodes t derived)) →
  NoDup (tag <$> expandActions derived impls i names).
Proof.
  revert i. induction names as [|n ns IH]; intros i Hsel; simpl; [constructor|].
  destruct (impls !! n) as [f|] eqn:Hf; [|constructor].
  rewrite fmap_app. apply NoDup_app. split; [|split].
  - apply NoDup_expandTasks. intros t Ht. apply (Hsel n f); [by left|done..].
  - intros x (e1 & -> & He1%expandTasks_index)%list_elem_of_fmap
             (e2 & Heq & He2%expandActions_index)%list_elem_of_fmap.
    unfold tag in Heq. injection Heq as _ Hi _. lia.
  - apply IH. intros name f' t Hname. apply Hsel. by right.
Qed.

(** C7, amended: in a plan that the planner returns, when node names are
    unique within the topology and every selector of the actions named
    returns nodes of the topology, none more often than the topology lists
    it, any two entries differ in one of the four components of the sort
    key, and their sort keys differ. *)
Theorem newExecutionPlan_distinct_keys derived names impls plan :
  (newExecutionPlan derived names impls).1 = Ok plan →
  NoDup (Name <$> AllReplicas derived) →
  selectors_within derived impls names →
  distinct_keys plan.
Proof.
  intros (_ & Hperm & _)%newExecutionPlan_Ok_inv Hnames Hsel.
  assert (NoDup (tag <$> plan)) as Hnd.
  { rewrite Hperm. apply NoDup_expandActions. intros name f t Hname Hf Ht.
    apply (submseteq_NoDup _ (Name <$> AllReplicas derived)); [|done].
    apply fmap_submseteq. by apply (Hsel name f). }
  assert (∀ (p q : nat) a b, p ≠ q → plan !! p = Some a → plan !! q = Some b →
            tag a ≠ tag b) as Htag.
  { intros p q a b Hpq Hp Hq Heq. apply Hpq.
    apply (NoDup_lookup (tag <$> plan) p q (tag a) Hnd).
    - by rewrite list_lookup_fmap, Hp.
    - by rewrite list_lookup_fmap, Hq, Heq. }
  intros p q a b Hpq Hp Hq. split.
  - intros [= _ Hn Hi Hj]. apply (Htag p q a b); [done..|].
    unfold tag. congruence.
  - intros (_ & Hn & Hi & Hj)%KeyFormat.ExecutionOrder_inj.
    apply (Htag p q a b); [done..|]. unfold tag. congruence.
Qed.

(** *** Ranks of equally many digits

    Between non-negative numbers whose renderings have the same length the
    byte-wise order of the renderings is the numeric order. *)

Lemma string_of_uint_digits (u : Decimal.uint) :
  NilEmpty.string_of_uint u = digits_string (DecimalFacts.to_list u).
Proof. induction u; simpl; congruence. Qed.

Lemma of_uint_acc_digits (u : Decimal.uint) (acc : positive) :
  Npos (Pos.of_uint_acc u acc) = digits_val (DecimalFacts.to_list u) (Npos acc).
Proof.
  revert acc. induction u; intros acc; simpl; [done|rewrite IHu; f_equal; lia..].
Qed.

Lemma of_uint_digits (u : Decimal.uint) :
  Pos.of_uint u = digits_val (DecimalFacts.to_list u) 0.
Proof. induction u; simpl; [done|done|by rewrite of_uint_acc_digits..]. Qed.

Lemma digits_val_acc (l : list DecimalFacts.digits) (acc : N) :
  (digits_val l acc = acc * 10 ^ N.of_nat (length l) + digits_val l 0)%N.
Proof.
  revert acc. induction l as [|d l IH]; intros acc.
  { simpl. lia. }
  cbn [digits_val length]. rewrite (IH (10 * acc + digit_val d)%N).
  rewrite (IH (10 * 0 + digit_val d)%N).
  rewrite Nat2N.inj_succ, N.pow_succ_r'. ring.
Qed.

Lemma digits_val_bound (l : list DecimalFacts.digits) :
  (digits_val l 0 < 10 ^ N.of_nat (length l))%N.
Proof.
  induction l as [|d l IH]; [done|].
  cbn [digits_val length]. rewrite digits_val_acc.
  rewrite Nat2N.inj_succ, N.pow_succ_r'.
  assert (digit_val d ≤ 9)%N by (destruct d; simpl; lia). nia.
Qed.

Lemma digit_compare (d1 d2 : DecimalFacts.digits) :
  Ascii.compare (digit_char d1) (digit_char d2)
  = N.compare (digit_val d1) (digit_val d2).
Proof. destruct d1, d2; reflexivity. Qed.

Lemma digits_compare (l1 l2 : list DecimalFacts.digits) (acc : N) (r1 r2 : string) :
  length l1 = length l2 →
  (digits_val l1 acc < digits_val l2 acc)%N →
  String.compare (digits_string l1 +:+ r1) (digits_string l2 +:+ r2) = Lt.
Proof.
  revert l2 acc. induction l1 as [|d1 l1 IH]; intros [|d2 l2] acc Hlen Hlt;
    simpl in *; try done; [lia|].
  injection Hlen as Hlen. rewrite digit_compare.
  destruct (N.compare_spec (digit_val d1) (digit_val d2)) as [Heq|Hd|Hd].
  - rewrite Heq in Hlt. by apply (IH l2 (10 * acc + digit_val d2)%N).
  - done.
  - exfalso. rewrite (digits_val_acc l1), (digits_val_acc l2), Hlen in Hlt.
    pose proof (digits_val_bound l2). nia.
Qed.

Lemma length_digits_string (l : list DecimalFacts.digits) :
  String.length (digits_string l) = length l.
Proof. induction l as [|d l IH]; simpl; [done|]. by rewrite IH. Qed.

Lemma fmt_d_digits (x : Z) :
  0 ≤ x →
  ∃ l, fmt_d x = digits_string l ∧ digits_val l 0 = Z.to_N x.
Proof.
  intros Hx. destruct x as [|p|p]; [| |lia].
  - by exists [DecimalFacts.d0].
  - exists (DecimalFacts.to_list (Pos.to_uint p)). split.
    + unfold fmt_d. simpl. rewrite <-string_of_uint_digits.
      pose proof (DecimalPos.Unsigned.to_uint_nonnil p).
      by destruct (Pos.to_uint p).
    + by rewrite <-of_uint_digits, DecimalPos.Unsigned.of_to.
Qed.

Lemma fmt_d_same_digits_lt (x y : Z) (r1 r2 : string) :
  x < y → same_digits x y →
  String.ltb (fmt_d x +:+ r1) (fmt_d y +:+ r2) = true.
Proof.
  intros Hxy (Hx & Hy & Hlen).
  destruct (fmt_d_digits x Hx) as (l1 & E1 & V1).
  destruct (fmt_d_digits y Hy) as (l2 & E2 & V2).
  rewrite E1, E2 in *. rewrite !length_digits_string in Hlen.
  apply StringOrder.ltb_lt. apply (digits_compare l1 l2 0%N); [done|]. lia.
Qed.

Lemma ExecutionOrder_lt_same_digits a b :
  ProvisioningOrder (Node a) < ProvisioningOrder (Node b) →
  same_digits (ProvisioningOrder (Node a)) (ProvisioningOrder (Node b)) →
  String.ltb (ExecutionOrder a) (ExecutionOrder b) = true.
Proof.
  intros H1 H2. unfold ExecutionOrder. rewrite StringOrder.ltb_app_head.
  by apply fmt_d_same_digits_lt.
Qed.


(** *** Plans with pairwise distinct keys

    [sort.Sort] is not stable, but between entries of distinct keys there is
    nothing to choose: the sorted permutation is unique. *)

Lemma key_le_antisym a b :
  key_le a b → key_le b a → ExecutionOrder a = ExecutionOrder b.
Proof.
  unfold key_le. intros Hab Hba.
  destruct (StringOrder.ltb_total (ExecutionOrder a) (ExecutionOrder b))
    as [H|[H|H]]; congruence.
Qed.

Lemma sorted_plan_unique plan1 plan2 :
  NoDup (ExecutionOrder <$> plan1) → plan1 ≡ₚ plan2 →
  StronglySorted key_le plan1 → StronglySorted key_le plan2 →
  plan1 = plan2.
Proof.
  intros Hnd Hperm H1 H2.
  apply (StronglySorted_unique_strong key_le); [|done..].
  intros x1 x2 Hx1 Hx2 H12 H21. rewrite <-Hperm in Hx2.
  apply list_elem_of_lookup in Hx1 as [i1 Hi1], Hx2 as [i2 Hi2].
  assert (i1 = i2) as ->; [|congruence].
  apply (NoDup_lookup (ExecutionOrder <$> plan1) i1 i2 (ExecutionOrder x1) Hnd).
  - by rewrite list_lookup_fmap, Hi1.
  - by rewrite list_lookup_fmap, Hi2, (key_le_antisym x1 x2).
Qed.

(** X15: with pairwise distinct keys the plan does not depend on how the sort
    proceeds: it is the one sorted permutation of the expansion. *)
Lemma newExecutionPlan_any_sort derived names impls plan plan' :
  (newExecutionPlan derived names impls).1 = Ok plan →
  NoDup (ExecutionOrder <$> plan) →
  plan' ≡ₚ expandActions derived impls 0 names →
  StronglySorted key_le plan' →
  plan' = plan.
Proof.
  intros (_ & Hperm & Hsorted)%newExecutionPlan_Ok_inv Hnd Hperm' Hsorted'.
  symmetry. apply sorted_plan_unique; [done| |done..].
  by rewrite Hperm, Hperm'.
Qed.

(** *** Where decimal renderings have one digit

    A byte-wise comparison of the keys agrees with the numeric order of a
    component as long as both renderings are a single digit. *)

Lemma fmt_d_digit_lt (x y : Z) (r1 r2 : string) :
  0 ≤ x < y → y ≤ 9 →
  String.ltb (fmt_d x +:+ r1) (fmt_d y +:+ r2) = true.
Proof.
  intros Hxy Hy.
  assert (x = 0 ∨ x = 1 ∨ x = 2 ∨ x = 3 ∨ x = 4 ∨ x = 5 ∨ x = 6 ∨ x = 7 ∨ x = 8)
    as Hx' by lia.
  assert (y = 1 ∨ y = 2 ∨ y = 3 ∨ y = 4 ∨ y = 5 ∨ y = 6 ∨ y = 7 ∨ y = 8 ∨ y = 9)
    as Hy' by lia.
  destruct_or!; subst; try lia; reflexivity.
Qed.

Lemma append_empty_r (s : string) : s +:+ EmptyString = s.
Proof.
  induction s as [|c s IH]; [done|].
  change (String c (s +:+ EmptyString) = String c s). by rewrite IH.
Qed.

Lemma ExecutionOrder_lt_rank a b :
  0 ≤ ProvisioningOrder (Node a) < ProvisioningOrder (Node b) →
  ProvisioningOrder (Node b) ≤ 9 →
  String.ltb (ExecutionOrder a) (ExecutionOrder b) = true.
Proof.
  intros H1 H2. unfold ExecutionOrder. rewrite StringOrder.ltb_app_head.
  by apply fmt_d_digit_lt.
Qed.

Lemma ExecutionOrder_lt_index a b :
  Node a = Node b →
  (0 ≤ actionIndex a < actionIndex b ∧ actionIndex b ≤ 9)
  ∨ (actionIndex a = actionIndex b
     ∧ 0 ≤ taskIndex a < taskIndex b ∧ taskIndex b ≤ 9) →
  String.ltb (ExecutionOrder a) (ExecutionOrder b) = true.
Proof.
  intros Hnode H. unfold ExecutionOrder.
  rewrite Hnode, !StringOrder.ltb_app_head.
  destruct H as [[H1 H2]|(Hi & H1 & H2)].
  - by apply fmt_d_digit_lt.
  - rewrite Hi, !StringOrder.ltb_app_head.
    rewrite <-(append_empty_r (fmt_d (taskIndex a))).
    rewrite <-(append_empty_r (fmt_d (taskIndex b))).
    by apply fmt_d_digit_lt.
Qed.

(** X13: in a returned plan an entry of lower rank stands before an entry of
    higher rank when both ranks are between 0 and 9. *)
Lemma newExecutionPlan_rank_digits derived names impls plan (p q : nat) a b :
  (newExecutionPlan derived names impls).1 = Ok plan →
  plan !! p = Some a → plan !! q = Some b →
  0 ≤ ProvisioningOrder (Node a) < ProvisioningOrder (Node b) →
  ProvisioningOrder (Node b) ≤ 9 →
  (p < q)%nat.
Proof.
  intros (_ & _ & Hsorted)%newExecutionPlan_Ok_inv Hp Hq H1 H2.
  eapply sorted_lt_before; eauto using ExecutionOrder_lt_rank.
Qed.

(** X14: in a returned plan, among the entries of one node, a smaller action
    index stands first, and within one action a smaller task index, when the
    two indices compared are between 0 and 9. *)
Lemma newExecutionPlan_index_digits derived names impls plan (p q : nat) a b :
  (newExecutionPlan derived names impls).1 = Ok plan →
  plan !! p = Some a → plan !! q = Some b →
  Node a = Node b →
  (0 ≤ actionIndex a < actionIndex b ∧ actionIndex b ≤ 9)
  ∨ (actionIndex a = actionIndex b
     ∧ 0 ≤ taskIndex a < taskIndex b ∧ taskIndex b ≤ 9) →
  (p < q)%nat.
Proof.
  intros (_ & _ & Hsorted)%newExecutionPlan_Ok_inv Hp Hq Hnode H.
  eapply sorted_lt_before; eauto using ExecutionOrder_lt_index.
Qed.

End Order.

(** ** The sort interface of the plan *)

Section Interface.
Context {execContext : Type}.
Implicit Types (t plan : executionPlan execContext) (a b : plannedTask execContext).

(** [Less] and [Swap] panic exactly when one of the two indices is not
    below [Len]. *)
Theorem Less_Swap_out_of_range t (i j : nat) :
  (Less t i j = None ↔ (Len t ≤ i ∨ Len t ≤ j)%nat)
  ∧ (Swap t i j = None ↔ (Len t ≤ i ∨ Len t ≤ j)%nat).
Proof.
  unfold Less, Swap, Len. rewrite <-!lookup_ge_None.
  destruct (t !! i), (t !! j);
    (split; (split; [intros ?; try done; auto|intros [?|?]; done])).
Qed.

(** X1: a [Swap] that does not panic exchanges the entries at the two indices,
    leaves every other position, the length and the entries as a whole as
    they were, and is undone by the same [Swap]. *)
Theorem Swap_exchanges t (i j : nat) t' :
  Swap t i j = Some t' →
  Len t' = Len t
  ∧ t' !! i = t !! j
  ∧ t' !! j = t !! i
  ∧ (∀ k : nat, k ≠ i → k ≠ j → t' !! k = t !! k)
  ∧ t' ≡ₚ t
  ∧ Swap t' i j = Some t.
Proof.
  unfold Swap, Len.
  destruct (t !! j) as [b|] eqn:Hj; [|done].
  destruct (t !! i) as [a|] eqn:Hi; [|done]. intros [= <-].
  pose proof (lookup_lt_Some _ _ _ Hi) as Hilt.
  pose proof (lookup_lt_Some _ _ _ Hj) as Hjlt.
  assert (<[j:=a]> (<[i:=b]> t) !! j = Some a) as Hj'.
  { apply list_lookup_insert_eq. by rewrite length_insert. }
  assert (<[j:=a]> (<[i:=b]> t) !! i = Some b) as Hi'.
  { destruct (decide (i = j)) as [->|Hne].
    - rewrite Hj'. congruence.
    - rewrite list_lookup_insert_ne by done. by apply list_lookup_insert_eq. }
  split; [by rewrite !length_insert|]. split; [done|]. split; [done|].
  split; [intros k Hki Hkj; by rewrite !list_lookup_insert_ne|].
  split; [by apply Permutation_insert_swap|].
  rewrite Hj', Hi'. f_equal. apply list_eq. intros k.
  destruct (decide (k = j)) as [->|Hkj].
  { rewrite list_lookup_insert_eq by (by rewrite !length_insert). done. }
  rewrite list_lookup_insert_ne by done.
  destruct (decide (k = i)) as [->|Hki].
  { rewrite list_lookup_insert_eq by (by rewrite !length_insert). done. }
  by rewrite !list_lookup_insert_ne.
Qed.

(** X2: [Less] is a strict order on the positions of a plan: when position [i]
    is [Less] than [j], the two differ, [j] is not [Less] than [i], and [i]
    is [Less] than whatever [j] is [Less] than. *)
Theorem Less_strict_order t (i j : nat) :
  Less t i j = Some true →
  i ≠ j
  ∧ Less t j i = Some false
  ∧ ∀ k : nat, Less t j k = Some true → Less t i k = Some true.
Proof.
  unfold Less.
  destruct (t !! i) as [a|] eqn:Hi; [|done].
  destruct (t !! j) as [b|] eqn:Hj; [|done]. intros [= Hab].
  split; [|split].
  - intros ->. rewrite Hi in Hj. injection Hj as ->.
    by rewrite StringOrder.ltb_irrefl in Hab.
  - by rewrite (StringOrder.ltb_asym _ _ Hab).
  - intros k. destruct (t !! k) as [c|]; [|done]. intros [= Hbc].
    by rewrite (StringOrder.ltb_trans _ _ _ Hab Hbc).
Qed.

(** X3: two entries tie under [Less], neither being [Less] than the other,
    only when they agree on rank, node name, action index and task index. *)
Theorem Less_tie_components t (i j : nat) a b :
  t !! i = Some a → t !! j = Some b →
  Less t i j = Some false → Less t j i = Some false →
  components a = components b.
Proof.
  unfold Less. intros -> -> [= Hab] [= Hba].
  destruct (StringOrder.ltb_total (ExecutionOrder a) (ExecutionOrder b))
    as [H|[H|H]]; [congruence| |congruence].
  apply KeyFormat.ExecutionOrder_inj in H as (Ho & Hn & Hi & Hj).
  unfold components. congruence.
Qed.

(** X4: the sort key is a faithful rendering of the four components: two
    entries have the same key exactly when they agree on all four. *)
Theorem ExecutionOrder_components a b :
  ExecutionOrder a = ExecutionOrder b ↔ components a = components b.
Proof.
  split.
  - intros (Ho & Hn & Hi & Hj)%KeyFormat.ExecutionOrder_inj.
    unfold components. congruence.
  - intros [= Ho Hn Hi Hj]. unfold ExecutionOrder. congruence.
Qed.

End Interface.

(** ** What a returned plan holds *)

Section Plans.
Context {execContext : Type}.
Implicit Types (plan : executionPlan execContext) (impls : actionImpls execContext).
Implicit Types (a b c e : plannedTask execContext) (derived : derivedConfigData).
Implicit Types (t : task execContext) (tasks : list (task execContext)).

Lemma sorted_lookup_le plan (p q : nat) a b :
  StronglySorted key_le plan →
  plan !! p = Some a → plan !! q = Some b → (p < q)%nat → key_le a b.
Proof.
  intros Hsorted. revert p q.
  induction Hsorted as [|z l Hl IH Hz]; intros p q Hp Hq Hpq; [done|].
  destruct q as [|q]; [lia|]. destruct p as [|p]; simpl in *.
  - injection Hp as ->. rewrite Forall_forall in Hz. apply Hz.
    by eapply list_elem_of_lookup_2.
  - eapply IH; eauto. lia.
Qed.

(** X5: a returned plan is sorted by [Less]: no position is [Less] than an
    earlier one, and a position that is [Less] than another stands before
    it. *)
Theorem newExecutionPlan_sorted_by_Less derived names impls plan (p q : nat) :
  (newExecutionPlan derived names impls).1 = Ok plan →
  ((p < q)%nat → (q < Len plan)%nat → Less plan q p = Some false)
  ∧ (Less plan p q = Some true → (p < q)%nat).
Proof.
  intros (_ & _ & Hsorted)%newExecutionPlan_Ok_inv. split.
  - intros Hpq Hq. unfold Len in Hq.
    destruct (lookup_lt_is_Some_2 plan q Hq) as [b Hb].
    destruct (lookup_lt_is_Some_2 plan p) as [a Ha]; [lia|].
    unfold Less. rewrite Hb, Ha. f_equal.
    exact (sorted_lookup_le plan p q a b Hsorted Ha Hb Hpq).
  - unfold Less. destruct (plan !! p) as [a|] eqn:Ha; [|done].
    destruct (plan !! q) as [b|] eqn:Hb; [|done]. intros [= Hlt].
    by eapply sorted_lt_before.
Qed.

(** X6: the planner returns a plan exactly when every action name of the list
    is registered. *)
Theorem newExecutionPlan_succeeds_iff derived names impls :
  (∃ plan, (newExecutionPlan derived names impls).1 = Ok plan)
  ↔ Forall (registered impls) names.
Proof.
  split.
  - intros [plan Hplan]. by apply newExecutionPlan_Ok_inv in Hplan as [? _].
  - intros Hreg.
    destruct (newExecutionPlan_registered derived names impls Hreg)
      as (plan & -> & _). by exists plan.
Qed.

Lemma elem_of_expandTasks derived i j tasks e :
  e ∈ expandTasks derived i j tasks →
  ∃ (l : nat) t,
    tasks !! l = Some t ∧ Node e ∈ TargetNodes t derived
    ∧ e = planned t i (j + Z.of_nat l) (Node e).
Proof.
  revert j. induction tasks as [|t ts IH]; intros j; simpl; [by intros ?%elem_of_nil|].
  intros [He|He]%elem_of_app.
  - apply list_elem_of_fmap in He as (n & -> & Hn).
    exists 0%nat, t. simpl. by rewrite Z.add_0_r.
  - apply IH in He as (l & t' & Hl & Hn & He). exists (S l), t'.
    split; [done|]. split; [done|].
    by replace (j + Z.of_nat (S l)) with (j + 1 + Z.of_nat l) by lia.
Qed.

Lemma elem_of_expandActions derived impls i names e :
  e ∈ expandActions derived impls i names →
  ∃ (k : nat) name f,
    names !! k = Some name ∧ impls !! name = Some f
    ∧ e ∈ expandTasks derived (i + Z.of_nat k) 0 (Tasks (f tt)).
Proof.
  revert i. induction names as [|n ns IH]; intros i; simpl; [by intros ?%elem_of_nil|].
  destruct (impls !! n) as [f|] eqn:Hf; [|by intros ?%elem_of_nil].
  intros [He|He]%elem_of_app.
  - exists 0%nat, n, f. simpl. by rewrite Z.add_0_r.
  - apply IH in He as (k & name & f' & Hk & Hf' & He). exists (S k), name, f'.
    split; [done|]. split; [done|].
    by replace (i + Z.of_nat (S k)) with (i + 1 + Z.of_nat k) by lia.
Qed.

(** X8: every entry of a returned plan stems from a task: its node is one that
    the selector of the task at position [l] of the action named at position
    [k] returns on the topology, and the entry carries that task and the two
    positions as its indices. *)
Theorem newExecutionPlan_entries_stem derived names impls plan e :
  (newExecutionPlan derived names impls).1 = Ok plan →
  e ∈ plan →
  ∃ (k l : nat) name f t,
    names !! k = Some name ∧ impls !! name = Some f
    ∧ Tasks (f tt) !! l = Some t
    ∧ Node e ∈ TargetNodes t derived
    ∧ e = planned t (Z.of_nat k) (Z.of_nat l) (Node e).
Proof.
  intros (_ & Hperm & _)%newExecutionPlan_Ok_inv He. rewrite Hperm in He.
  apply elem_of_expandActions in He as (k & name & f & Hk & Hf & He).
  apply elem_of_expandTasks in He as (l & t & Hl & Hn & He).
  exists k, l, name, f, t. by rewrite !Z.add_0_l in He.
Qed.

Lemma length_expandTasks derived i j tasks :
  length (expandTasks derived i j tasks)
  = sum_list_with (λ t, length (TargetNodes t derived)) tasks.
Proof.
  revert j. induction tasks as [|t ts IH]; intros j; simpl; [done|].
  by rewrite length_app, length_fmap, IH.
Qed.

Lemma length_expandActions derived impls i names :
  Forall (registered impls) names →
  length (expandActions derived impls i names) = selectedTotal derived impls names.
Proof.
  intros Hreg. revert i. unfold selectedTotal.
  induction Hreg as [|n ns [f Hf] _ IH]; intros i; simpl; [done|].
  rewrite Hf, length_app, length_expandTasks, IH. done.
Qed.

(** X9: a returned plan has as many entries as the tasks of the named actions
    select nodes, an action named twice counting twice. *)
Theorem newExecutionPlan_Len derived names impls plan :
  (newExecutionPlan derived names impls).1 = Ok plan →
  Len plan = selectedTotal derived impls names.
Proof.
  intros (Hreg & Hperm & _)%newExecutionPlan_Ok_inv.
  unfold Len. rewrite Hperm. by apply length_expandActions.
Qed.

Lemma expandTasks_shift derived k i j tasks :
  shiftAction k <$> expandTasks derived i j tasks = expandTasks derived (i + k) j tasks.
Proof.
  revert j. induction tasks as [|t ts IH]; intros j; simpl; [done|].
  by rewrite fmap_app, IH, <-list_fmap_compose.
Qed.

Lemma expandActions_shift derived impls k i names :
  shiftAction k <$> expandActions derived impls i names
  = expandActions derived impls (i + k) names.
Proof.
  revert i. induction names as [|n ns IH]; intros i; simpl; [done|].
  destruct (impls !! n) as [f|]; [|done].
  rewrite fmap_app, expandTasks_shift, IH.
  by replace (i + 1 + k) with (i + k + 1) by lia.
Qed.

Lemma expandActions_app derived impls i names1 names2 :
  Forall (registered impls) names1 →
  expandActions derived impls i (names1 ++ names2)
  = expandActions derived impls i names1
    ++ expandActions derived impls (i + Z.of_nat (length names1)) names2.
Proof.
  intros Hreg. revert i.
  induction Hreg as [|n ns [f Hf] _ IH]; intros i; simpl.
  - by rewrite Z.add_0_r.
  - rewrite Hf, IH, <-(assoc_L (++)). do 3 f_equal. lia.
Qed.

(** X10: planning two lists of action names one after the other: the plan of
    the concatenated list holds the entries of the plan of the first list
    and those of the plan of the second, the action indices of the latter
    moved up by the length of the first list. *)
Theorem newExecutionPlan_app derived names1 names2 impls plan1 plan2 :
  (newExecutionPlan derived names1 impls).1 = Ok plan1 →
  (newExecutionPlan derived names2 impls).1 = Ok plan2 →
  ∃ plan,
    (newExecutionPlan derived (names1 ++ names2) impls).1 = Ok plan
    ∧ plan ≡ₚ plan1 ++ (shiftAction (Z.of_nat (length names1)) <$> plan2).
Proof.
  intros (Hreg1 & Hperm1 & _)%newExecutionPlan_Ok_inv
         (Hreg2 & Hperm2 & _)%newExecutionPlan_Ok_inv.
  destruct (newExecutionPlan_registered derived (names1 ++ names2) impls)
    as (plan & Hplan & Hperm & _); [by apply Forall_app|].
  exists plan. rewrite Hplan. split; [done|].
  rewrite Hperm, Hperm1, Hperm2, expandActions_app by done.
  by rewrite expandActions_shift.
Qed.

(** X11: a task bound to one of the three single-node selectors is planned at
    most once: for the node its accessor reports, or not at all. *)
Theorem newExecutionPlan_single_node derived names impls plan (k l : nat) name f t :
  (newExecutionPlan derived names impls).1 = Ok plan →
  names !! k = Some name → impls !! name = Some f → Tasks (f tt) !! l = Some t →
  TargetNodes t = selectBootstrapControlPlaneNode
  ∨ TargetNodes t = selectExternalEtcdNode
  ∨ TargetNodes t = selectExternalLoadBalancerNode →
  (length (filter (stems_from (Z.of_nat k) (Z.of_nat l)) plan) ≤ 1)%nat
  ∧ filter (stems_from (Z.of_nat k) (Z.of_nat l)) plan
    = planned t (Z.of_nat k) (Z.of_nat l) <$> TargetNodes t derived.
Proof.
  intros (Hreg & Hperm & _)%newExecutionPlan_Ok_inv Hk Hf Hl Hsel.
  assert (filter (stems_from (Z.of_nat k) (Z.of_nat l)) plan
          ≡ₚ planned t (Z.of_nat k) (Z.of_nat l) <$> TargetNodes t derived) as H.
  { rewrite Hperm.
    rewrite (filter_expandActions derived impls 0 names k name f) by done.
    rewrite Z.add_0_l.
    by rewrite (filter_expandTasks derived _ 0 (Tasks (f tt)) l t). }
  assert (length (TargetNodes t derived) ≤ 1)%nat as Hlen.
  { destruct Hsel as [-> | [-> | ->]];
      unfold selectBootstrapControlPlaneNode, selectExternalEtcdNode,
        selectExternalLoadBalancerNode;
      [destruct (BootStrapControlPlane derived)
      |destruct (ExternalEtcd derived)
      |destruct (ExternalLoadBalancer derived)]; simpl; lia. }
  split; [by rewrite H, length_fmap|].
  destruct (TargetNodes t derived) as [|n [|n' ns]]; simpl in *; [| |lia].
  - by apply Permutation_nil_r.
  - by apply Permutation_singleton_r.
Qed.

Lemma prefix_interval (P s x y : string) :
  String.ltb s (P +:+ x) = false → String.ltb (P +:+ y) s = false →
  ∃ z, s = P +:+ z.
Proof.
  revert s. induction P as [|c P IH]; intros s; [by exists s|].
  destruct s as [|c' s]; [done|].
  unfold String.ltb. simpl.
  rewrite (Ascii.compare_antisym c c').
  destruct (Ascii.compare c' c) eqn:Hc; simpl; [|done..].
  apply Ascii.compare_eq_iff in Hc as ->. intros H1 H2.
  destruct (IH s H1 H2) as [z ->]. by exists z.
Qed.

Lemma append_assoc_string (s1 s2 s3 : string) :
  (s1 +:+ s2) +:+ s3 = s1 +:+ (s2 +:+ s3).
Proof.
  induction s1 as [|c s1 IH]; [done|].
  change (String c ((s1 +:+ s2) +:+ s3) = String c (s1 +:+ (s2 +:+ s3))).
  by rewrite IH.
Qed.

Lemma above_space_no_space (s : string) :
  above_space s = true → " "%char ∉ chars s.
Proof.
  induction s as [|c s IH]; simpl; [intros _; apply not_elem_of_nil|].
  intros [Hc Hs]%andb_prop. apply not_elem_of_cons. split; [|by apply IH].
  intros <-. done.
Qed.

(** X12: the entries of one machine stand together: in a returned plan, an
    entry between two entries of equal rank and node name has that rank and
    that name too, the names having no byte at or below the space. *)
Theorem newExecutionPlan_grouped derived names impls plan (p q r : nat) a b c :
  (newExecutionPlan derived names impls).1 = Ok plan →
  plan !! p = Some a → plan !! q = Some b → plan !! r = Some c →
  (p < q < r)%nat →
  same_machine a c →
  above_space (Name (Node a)) = true → above_space (Name (Node b)) = true →
  same_machine a b.
Proof.
  intros (_ & _ & Hsorted)%newExecutionPlan_Ok_inv Hp Hq Hr [Hpq Hqr] [Ho Hn] Hva Hvb.
  pose proof (sorted_lookup_le plan p q a b Hsorted Hp Hq Hpq) as Hab.
  pose proof (sorted_lookup_le plan q r b c Hsorted Hq Hr Hqr) as Hbc.
  unfold key_le, ExecutionOrder in Hab, Hbc.
  rewrite <-Ho, <-Hn in Hbc. rewrite StringOrder.ltb_app_head in Hab, Hbc.
  assert (∀ R : string,
    fmt_d (ProvisioningOrder (Node a)) +:+ " - Node.Name: " +:+ Name (Node a)
      +:+ " - actionIndex: " +:+ R
    = (fmt_d (ProvisioningOrder (Node a)) +:+ " - Node.Name: " +:+ Name (Node a)
      +:+ " - actionIndex: ") +:+ R) as E.
  { intros R. by rewrite !append_assoc_string. }
  rewrite E in Hab, Hbc.
  destruct (prefix_interval _ _ _ _ Hab Hbc) as [z Hz]. rewrite <-E in Hz.
  apply (f_equal chars) in Hz. rewrite !KeyFormat.chars_app in Hz.
  change (chars " - Node.Name: ") with (" "%char :: chars "- Node.Name: ") in Hz.
  apply KeyFormat.split_first_sep in Hz as [Hrank Hz];
    [|apply KeyFormat.fmt_d_no_space..].
  apply app_inv_head in Hz.
  change (chars " - actionIndex: ") with (" "%char :: chars "- actionIndex: ") in Hz.
  apply KeyFormat.split_first_sep in Hz as [Hname _];
    [|by apply above_space_no_space..].
  apply KeyFormat.chars_inj, KeyFormat.fmt_d_inj in Hrank.
  apply KeyFormat.chars_inj in Hname. by split.
Qed.

(** Entries of an expansion with the same key are the same entry. *)
Lemma expansion_tie_eq derived impls names a b :
  a ∈ expandActions derived impls 0 names →
  b ∈ expandActions derived impls 0 names →
  ExecutionOrder a = ExecutionOrder b → a = b.
Proof.
  intros (k1 & name1 & f1 & Hk1 & Hf1 & Ha)%elem_of_expandActions
         (k2 & name2 & f2 & Hk2 & Hf2 & Hb)%elem_of_expandActions
         (Ho & Hn & Hi & Hj)%KeyFormat.ExecutionOrder_inj.
  apply elem_of_expandTasks in Ha as (l1 & t1 & Hl1 & _ & Ea).
  apply elem_of_expandTasks in Hb as (l2 & t2 & Hl2 & _ & Eb).
  destruct a as [ta [na oa] ia ja], b as [tb [nb ob] ib jb]. simpl in *.
  injection Ea as -> -> ->. injection Eb as -> -> ->. subst.
  assert (k1 = k2) as -> by lia. assert (l1 = l2) as -> by lia.
  rewrite Hk1 in Hk2. injection Hk2 as ->.
  rewrite Hf1 in Hf2. injection Hf2 as ->.
  rewrite Hl1 in Hl2. by injection Hl2 as ->.
Qed.

(** C6: two planning calls in a row, on the same topology and the same
    action names, return the same outcome (the same plan, entry for entry,
    or the same error) and leave the registry as it was; and nothing in the
    sort is left to chance: entries that tie under [Less] are the same
    entry, so any arrangement of the returned entries in which no entry is
    [Less] than an earlier one is the returned plan itself. *)
Theorem newExecutionPlan_deterministic derived names impls :
  ∃ r,
    planTwice derived names impls = ((r, r), impls)
    ∧ ∀ plan plan',
        r = Ok plan → plan' ≡ₚ plan → StronglySorted key_le plan' → plan' = plan.
Proof.
  exists (newExecutionPlan derived names impls).1.
  split; [apply planTwice_eq|].
  intros plan plan' (_ & Hperm & Hsorted)%newExecutionPlan_Ok_inv Hperm' Hsorted'.
  apply (StronglySorted_unique_strong key_le); [|done..].
  intros x1 x2 Hx1 Hx2 H12 H21.
  apply (expansion_tie_eq derived impls names).
  - by rewrite <-Hperm, <-Hperm'.
  - by rewrite <-Hperm.
  - unfold key_le in H12, H21.
    destruct (StringOrder.ltb_total (ExecutionOrder x1) (ExecutionOrder x2))
      as [H|[H|H]]; congruence.
Qed.

End Plans.

(** ** Registrations *)

Section Registrations.
Context {execContext : Type}.
Implicit Types (impls : actionImpls execContext) (derived : derivedConfigData).
Implicit Types (regs : list (string * (unit → action execContext))).
Implicit Types (plan : executionPlan execContext).

(** X16: registrations under other names do not touch a name: looking it up
    afterwards gives what it gave before. *)
Theorem getAction_untouched regs name impls :
  name ∉ regs.*1 →
  (getAction name (registerAll regs impls).2).1 = (getAction name impls).1.
Proof.
  intros Hnot. unfold getAction.
  assert ((registerAll regs impls).2 !! name = impls !! name) as Hlookup.
  { revert impls. induction regs as [|[n f] regs IH]; intros impls; [done|].
    simpl in *. apply not_elem_of_cons in Hnot as [Hne Hnot].
    unfold mbind, Reg_bind, registerAction.
    rewrite IH by done. by rewrite lookup_insert_ne. }
  rewrite Hlookup. by destruct (impls !! name).
Qed.

(** X17: registrations under pairwise distinct names may run in any order: the
    registry ends up the same. *)
Theorem registerAll_any_order regs1 regs2 impls :
  regs1 ≡ₚ regs2 → NoDup regs1.*1 →
  registerAll regs1 impls = registerAll regs2 impls.
Proof.
  intros Hperm. revert impls.
  induction Hperm as [|[n f] l l' Hperm IH|[n1 f1] [n2 f2] l|l l' l'' H1 IH1 H2 IH2];
    intros impls Hnd; simpl in *.
  - done.
  - unfold mbind, Reg_bind, registerAction. apply IH. by apply NoDup_cons in Hnd as [_ ?].
  - unfold mbind, Reg_bind, registerAction.
    apply NoDup_cons in Hnd as [Hne _]. apply not_elem_of_cons in Hne as [Hne _].
    by rewrite insert_insert_ne.
  - rewrite IH1 by done. apply IH2. by rewrite <-H1.
Qed.

Lemma planActions_lookups derived i names plan impls1 impls2 :
  (∀ name, name ∈ names → impls1 !! name = impls2 !! name) →
  (planActions derived i names plan impls1).1 = (planActions derived i names plan impls2).1.
Proof.
  revert i plan. induction names as [|n ns IH]; intros i plan Hsame; [done|].
  simpl. unfold mbind, Reg_bind, getAction.
  rewrite <-(Hsame n) by (by left).
  destruct (impls1 !! n) as [f|]; [|done].
  apply IH. intros name Hname. apply Hsame. by right.
Qed.

(** X18: the planner reads the registry at the names of its list only: on two
    registries that agree on these names it returns the same outcome. *)
Theorem newExecutionPlan_registry_frame derived names impls1 impls2 :
  (∀ name, name ∈ names → impls1 !! name = impls2 !! name) →
  (newExecutionPlan derived names impls1).1 = (newExecutionPlan derived names impls2).1.
Proof.
  intros Hsame. unfold newExecutionPlan, mbind, Reg_bind.
  pose proof (planActions_lookups derived 0 names [] impls1 impls2 Hsame) as H.
  destruct (planActions derived 0 names [] impls1) as [r1 s1],
           (planActions derived 0 names [] impls2) as [r2 s2].
  simpl in H. subst r2. destruct r1 as [plan|msg|]; [|done..].
  by destruct (sort_Sort plan).
Qed.

End Registrations.

(** ** Runs on the sample topologies *)

Section Runs.
Import Sample.


(** C2: with eleven action names, and with an action of eleven tasks, the
    entries of one node come in the order 0, 1, 10, 2, ..., 9 of their
    action index, respectively their task index: index 10 stands before
    index 2. *)
Theorem newExecutionPlan_index_ten_before_two :
  (∃ plan,
     newExecutionPlan single elevenNames implsEleven = (Ok plan, implsEleven)
     ∧ plan = (λ i, planned createTask i 0 node1) <$> [0; 1; 10; 2; 3; 4; 5; 6; 7; 8; 9]
     ∧ ¬ ordered_by_index plan)
  ∧ (∃ plan,
     newExecutionPlan single ["setup"] implsEleven = (Ok plan, implsEleven)
     ∧ plan = (λ j, planned createTask 0 j node1) <$> [0; 1; 10; 2; 3; 4; 5; 6; 7; 8; 9]
     ∧ ¬ ordered_by_index plan).
Proof.
  split.
  - eexists. split; [|split; [reflexivity|]]; [by vm_compute|].
    intros H.
    specialize (H 3%nat 2%nat (planned createTask 2 0 node1)
                  (planned createTask 10 0 node1) eq_refl eq_refl eq_refl).
    simpl in H. lia.
  - eexists. split; [|split; [reflexivity|]]; [by vm_compute|].
    intros H.
    specialize (H 3%nat 2%nat (planned createTask 0 2 node1)
                  (planned createTask 0 10 node1) eq_refl eq_refl eq_refl).
    simpl in H. lia.
Qed.

(** C3, as stated, fails: of two nodes of equal rank named "node" and
    "node " (with a final space), the planner puts the entry of "node "
    first although "node" is the smaller name. *)
Lemma name_tie_break_fails :
  ∃ plan,
    (newExecutionPlan blanks ["create"] impls).1 = Ok plan
    ∧ ¬ ordered_by_name (λ _, True) plan.
Proof.
  exists [planned createTask 0 0 spaced; planned createTask 0 0 plain].
  split; [by vm_compute|]. intros H.
  specialize (H 1%nat 0%nat (planned createTask 0 0 plain)
                (planned createTask 0 0 spaced) eq_refl eq_refl eq_refl eq_refl I).
  lia.
Qed.

(** C7, as stated, fails: on a topology of one node, a task whose selector
    returns that node twice yields two entries with the same four
    components and the same sort key. *)
Lemma distinct_keys_fails :
  NoDup (Name <$> AllReplicas single)
  ∧ ∃ plan,
      (newExecutionPlan single ["twice"] implsTwice).1 = Ok plan
      ∧ ¬ distinct_keys plan.
Proof.
  split; [apply NoDup_singleton|].
  exists [planned twiceTask 0 0 node1; planned twiceTask 0 0 node1].
  split; [by vm_compute|]. intros H.
  destruct (H 0%nat 1%nat (planned twiceTask 0 0 node1)
              (planned twiceTask 0 0 node1)) as [Hne _]; done.
Qed.

Lemma createInitJoin_registered : Forall (registered impls) createInitJoin.
Proof.
  repeat constructor;
    [by exists createAction|by exists initAction|by exists joinAction].
Qed.

Lemma cluster_selectors_within : selectors_within cluster impls createInitJoin.
Proof.
  intros name f t Hname Hf Ht.
  assert (TargetNodes t cluster = [node1; node2; node3]
          ∨ TargetNodes t cluster = [node1]
          ∨ TargetNodes t cluster = [node2; node3]
          ∨ TargetNodes t cluster = []) as Hsel.
  { unfold createInitJoin in Hname.
    repeat (apply elem_of_cons in Hname as [-> | Hname]);
      [| | |by apply elem_of_nil in Hname];
      vm_compute in Hf; injection Hf as <-;
      repeat (apply elem_of_cons in Ht as [-> | Ht]);
      try (by apply elem_of_nil in Ht); auto. }
  change (AllReplicas cluster) with [node1; node2; node3].
  destruct Hsel as [-> | [-> | [-> | ->]]].
  - done.
  - apply submseteq_skip, submseteq_nil_l.
  - apply submseteq_cons. done.
  - apply submseteq_nil_l.
Qed.

Lemma newExecutionPlan_fan_out_witness :
  Forall (registered impls) createInitJoin
  ∧ createInitJoin !! 1%nat = Some "init"
  ∧ impls !! "init" = Some initAction
  ∧ Tasks (initAction tt) !! 1%nat = Some initTask
  ∧ ∃ plan,
      newExecutionPlan cluster createInitJoin impls = (Ok plan, impls)
      ∧ filter (stems_from (Z.of_nat 1) (Z.of_nat 1)) plan
        ≡ₚ planned initTask (Z.of_nat 1) (Z.of_nat 1) <$> TargetNodes initTask cluster
      ∧ (TargetNodes initTask cluster = [] →
         filter (stems_from (Z.of_nat 1) (Z.of_nat 1)) plan = []).
Proof.
  split; [exact createInitJoin_registered|].
  split; [reflexivity|]. split; [reflexivity|]. split; [reflexivity|].
  apply (newExecutionPlan_fan_out cluster createInitJoin impls 1 1 "init"
           initAction initTask);
    [exact createInitJoin_registered|reflexivity..].
Defined.

Lemma newExecutionPlan_unknown_action_witness :
  (∃ n, n ∈ ["create"; "deploy"; "init"] ∧ impls !! n = None)
  ∧ ∃ pre name post,
      ["create"; "deploy"; "init"] = pre ++ name :: post
      ∧ Forall (registered impls) pre
      ∧ impls !! name = None
      ∧ newExecutionPlan cluster ["create"; "deploy"; "init"] impls
        = (Err ("no Action implementation with name: " +:+ name), impls)
      ∧ ∀ plan,
          (newExecutionPlan cluster ["create"; "deploy"; "init"] impls).1 ≠ Ok plan.
Proof.
  assert (∃ n, n ∈ ["create"; "deploy"; "init"] ∧ impls !! n = None) as H.
  { exists "deploy". split; [right; left|reflexivity]. }
  split; [exact H|].
  exact (newExecutionPlan_unknown_action cluster ["create"; "deploy"; "init"] impls H).
Defined.

Lemma getAction_last_registration_witness :
  ("init" ∉ [("join", joinAction)].*1)
  ∧ (getAction "init"
       (registerAll ([("create", createAction); ("init", joinAction)]
                     ++ ("init", initAction) :: [("join", joinAction)]) ∅).2).1
    = Ok (initAction tt).
Proof.
  assert ("init" ∉ [("join", joinAction)].*1) as H.
  { simpl. apply not_elem_of_cons. split; [discriminate|apply not_elem_of_nil]. }
  split; [exact H|].
  exact (getAction_last_registration
           [("create", createAction); ("init", joinAction)] "init" initAction
           [("join", joinAction)] ∅ H).
Defined.


Lemma newExecutionPlan_name_tie_break_witness :
  (newExecutionPlan cluster createInitJoin impls).1 = Ok clusterPlan
  ∧ ordered_by_name (λ name, above_space name = true) clusterPlan.
Proof.
  assert ((newExecutionPlan cluster createInitJoin impls).1 = Ok clusterPlan) as H
    by (vm_compute; reflexivity).
  split; [exact H|].
  exact (newExecutionPlan_name_tie_break cluster createInitJoin impls clusterPlan H).
Defined.

Lemma newExecutionPlan_distinct_keys_witness :
  (newExecutionPlan cluster createInitJoin impls).1 = Ok clusterPlan
  ∧ NoDup (Name <$> AllReplicas cluster)
  ∧ selectors_within cluster impls createInitJoin
  ∧ distinct_keys clusterPlan.
Proof.
  assert ((newExecutionPlan cluster createInitJoin impls).1 = Ok clusterPlan) as H
    by (vm_compute; reflexivity).
  assert (NoDup (Name <$> AllReplicas cluster)) as Hnames
    by (apply (bool_decide_unpack _); vm_compute; reflexivity).
  split; [exact H|]. split; [exact Hnames|].
  split; [exact cluster_selectors_within|].
  exact (newExecutionPlan_distinct_keys cluster createInitJoin impls clusterPlan
           H Hnames cluster_selectors_within).
Defined.

Lemma cluster_planned :
  (newExecutionPlan cluster createInitJoin impls).1 = Ok clusterPlan.
Proof. by vm_compute. Qed.

Lemma Swap_exchanges_witness :
  Swap clusterPlan 0 2 = Some clusterPlanSwapped
  ∧ Len clusterPlanSwapped = Len clusterPlan
  ∧ clusterPlanSwapped !! 0%nat = clusterPlan !! 2%nat
  ∧ clusterPlanSwapped !! 2%nat = clusterPlan !! 0%nat
  ∧ (∀ k : nat, k ≠ 0%nat → k ≠ 2%nat → clusterPlanSwapped !! k = clusterPlan !! k)
  ∧ clusterPlanSwapped ≡ₚ clusterPlan
  ∧ Swap clusterPlanSwapped 0 2 = Some clusterPlan.
Proof.
  split; [reflexivity|].
  apply (Swap_exchanges clusterPlan 0 2 clusterPlanSwapped). reflexivity.
Defined.

Lemma Less_strict_order_witness :
  Less clusterPlan 0 1 = Some true
  ∧ 0%nat ≠ 1%nat
  ∧ Less clusterPlan 1 0 = Some false
  ∧ ∀ k : nat, Less clusterPlan 1 k = Some true → Less clusterPlan 0 k = Some true.
Proof.
  split; [reflexivity|].
  apply (Less_strict_order clusterPlan 0 1). reflexivity.
Defined.

Lemma Less_tie_components_witness :
  twicePlan !! 0%nat = Some (planned twiceTask 0 0 node1)
  ∧ twicePlan !! 1%nat = Some (planned twiceTask 0 0 node1)
  ∧ Less twicePlan 0 1 = Some false
  ∧ Less twicePlan 1 0 = Some false
  ∧ components (planned twiceTask 0 0 node1) = components (planned twiceTask 0 0 node1).
Proof.
  split; [reflexivity|]. split; [reflexivity|].
  split; [reflexivity|]. split; [reflexivity|].
  apply (Less_tie_components twicePlan 0 1); reflexivity.
Defined.

Lemma newExecutionPlan_sorted_by_Less_witness :
  (newExecutionPlan cluster createInitJoin impls).1 = Ok clusterPlan
  ∧ ((1 < 3)%nat → (3 < Len clusterPlan)%nat → Less clusterPlan 3 1 = Some false)
  ∧ (Less clusterPlan 1 3 = Some true → (1 < 3)%nat).
Proof.
  split; [exact cluster_planned|].
  exact (newExecutionPlan_sorted_by_Less cluster createInitJoin impls clusterPlan
           1 3 cluster_planned).
Defined.

Lemma newExecutionPlan_entries_stem_witness :
  (newExecutionPlan cluster createInitJoin impls).1 = Ok clusterPlan
  ∧ planned initTask 1 1 node1 ∈ clusterPlan
  ∧ ∃ (k l : nat) name f t,
      createInitJoin !! k = Some name ∧ impls !! name = Some f
      ∧ Tasks (f tt) !! l = Some t
      ∧ Node (planned initTask 1 1 node1) ∈ TargetNodes t cluster
      ∧ planned initTask 1 1 node1
        = planned t (Z.of_nat k) (Z.of_nat l) (Node (planned initTask 1 1 node1)).
Proof.
  assert (planned initTask 1 1 node1 ∈ clusterPlan) as H by (right; left).
  split; [exact cluster_planned|]. split; [exact H|].
  exact (newExecutionPlan_entries_stem cluster createInitJoin impls clusterPlan _
           cluster_planned H).
Defined.

Lemma newExecutionPlan_Len_witness :
  (newExecutionPlan cluster createInitJoin impls).1 = Ok clusterPlan
  ∧ Len clusterPlan = selectedTotal cluster impls createInitJoin.
Proof.
  split; [exact cluster_planned|].
  exact (newExecutionPlan_Len cluster createInitJoin impls clusterPlan cluster_planned).
Defined.

Lemma newExecutionPlan_app_witness :
  (newExecutionPlan cluster ["create"] impls).1 = Ok createPlan
  ∧ (newExecutionPlan cluster ["init"; "join"] impls).1 = Ok initJoinPlan
  ∧ ∃ plan,
      (newExecutionPlan cluster (["create"] ++ ["init"; "join"]) impls).1 = Ok plan
      ∧ plan ≡ₚ createPlan
                ++ (shiftAction (Z.of_nat (length ["create"])) <$> initJoinPlan).
Proof.
  assert ((newExecutionPlan cluster ["create"] impls).1 = Ok createPlan) as H1
    by (vm_compute; reflexivity).
  assert ((newExecutionPlan cluster ["init"; "join"] impls).1 = Ok initJoinPlan) as H2
    by (vm_compute; reflexivity).
  split; [exact H1|]. split; [exact H2|].
  exact (newExecutionPlan_app cluster ["create"] ["init"; "join"] impls
           createPlan initJoinPlan H1 H2).
Defined.

Lemma newExecutionPlan_single_node_witness :
  (newExecutionPlan cluster createInitJoin impls).1 = Ok clusterPlan
  ∧ createInitJoin !! 1%nat = Some "init"
  ∧ impls !! "init" = Some initAction
  ∧ Tasks (initAction tt) !! 1%nat = Some initTask
  ∧ (TargetNodes initTask = selectBootstrapControlPlaneNode
     ∨ TargetNodes initTask = selectExternalEtcdNode
     ∨ TargetNodes initTask = selectExternalLoadBalancerNode)
  ∧ (length (filter (stems_from (Z.of_nat 1) (Z.of_nat 1)) clusterPlan) ≤ 1)%nat
  ∧ filter (stems_from (Z.of_nat 1) (Z.of_nat 1)) clusterPlan
    = planned initTask (Z.of_nat 1) (Z.of_nat 1) <$> TargetNodes initTask cluster.
Proof.
  split; [exact cluster_planned|].
  split; [reflexivity|]. split; [reflexivity|]. split; [reflexivity|].
  split; [left; reflexivity|].
  apply (newExecutionPlan_single_node cluster createInitJoin impls clusterPlan 1 1
           "init" initAction initTask);
    [exact cluster_planned|reflexivity..|left; reflexivity].
Defined.

Lemma newExecutionPlan_grouped_witness :
  (newExecutionPlan single elevenNames implsEleven).1 = Ok elevenPlan
  ∧ elevenPlan !! 1%nat = Some (planned createTask 1 0 node1)
  ∧ elevenPlan !! 2%nat = Some (planned createTask 10 0 node1)
  ∧ elevenPlan !! 3%nat = Some (planned createTask 2 0 node1)
  ∧ (1 < 2 < 3)%nat
  ∧ same_machine (planned createTask 1 0 node1) (planned createTask 2 0 node1)
  ∧ above_space (Name (Node (planned createTask 1 0 node1))) = true
  ∧ above_space (Name (Node (planned createTask 10 0 node1))) = true
  ∧ same_machine (planned createTask 1 0 node1) (planned createTask 10 0 node1).
Proof.
  assert ((newExecutionPlan single elevenNames implsEleven).1 = Ok elevenPlan) as H
    by (vm_compute; reflexivity).
  split; [exact H|].
  split; [reflexivity|]. split; [reflexivity|]. split; [reflexivity|].
  split; [lia|]. split; [split; reflexivity|].
  split; [reflexivity|]. split; [reflexivity|].
  apply (newExecutionPlan_grouped single elevenNames implsEleven elevenPlan 1 2 3
           (planned createTask 1 0 node1) (planned createTask 10 0 node1)
           (planned createTask 2 0 node1));
    [exact H|reflexivity|reflexivity|reflexivity|lia|split; reflexivity
    |reflexivity|reflexivity].
Defined.

Lemma newExecutionPlan_rank_digits_witness :
  (newExecutionPlan cluster createInitJoin impls).1 = Ok clusterPlan
  ∧ clusterPlan !! 1%nat = Some (planned initTask 1 1 node1)
  ∧ clusterPlan !! 2%nat = Some (planned createTask 0 0 node2)
  ∧ 0 ≤ ProvisioningOrder node1 < ProvisioningOrder node2
  ∧ ProvisioningOrder node2 ≤ 9
  ∧ (1 < 2)%nat.
Proof.
  split; [exact cluster_planned|]. split; [reflexivity|]. split; [reflexivity|].
  split; [simpl; lia|]. split; [simpl; lia|].
  apply (newExecutionPlan_rank_digits cluster createInitJoin impls clusterPlan 1 2
           (planned initTask 1 1 node1) (planned createTask 0 0 node2));
    [exact cluster_planned|reflexivity|reflexivity|simpl; lia|simpl; lia].
Defined.

Lemma newExecutionPlan_index_digits_witness :
  (newExecutionPlan cluster createInitJoin impls).1 = Ok clusterPlan
  ∧ clusterPlan !! 2%nat = Some (planned createTask 0 0 node2)
  ∧ clusterPlan !! 3%nat = Some (planned joinTask 2 0 node2)
  ∧ Node (planned createTask 0 0 node2) = Node (planned joinTask 2 0 node2)
  ∧ (2 < 3)%nat.
Proof.
  split; [exact cluster_planned|]. split; [reflexivity|]. split; [reflexivity|].
  split; [reflexivity|].
  apply (newExecutionPlan_index_digits cluster createInitJoin impls clusterPlan 2 3
           (planned createTask 0 0 node2) (planned joinTask 2 0 node2));
    [exact cluster_planned|reflexivity|reflexivity|reflexivity|left; simpl; lia].
Defined.

Lemma newExecutionPlan_any_sort_witness :
  (newExecutionPlan cluster createInitJoin impls).1 = Ok clusterPlan
  ∧ NoDup (ExecutionOrder <$> clusterPlan)
  ∧ clusterPlan ≡ₚ expandActions cluster impls 0 createInitJoin
  ∧ StronglySorted key_le clusterPlan
  ∧ clusterPlan = clusterPlan.
Proof.
  assert (NoDup (ExecutionOrder <$> clusterPlan)) as Hnd
    by (apply (bool_decide_unpack _); vm_compute; reflexivity).
  destruct (newExecutionPlan_Ok_inv cluster createInitJoin impls clusterPlan
              cluster_planned) as (_ & Hperm & Hsorted).
  split; [exact cluster_planned|]. split; [exact Hnd|].
  split; [exact Hperm|]. split; [exact Hsorted|].
  exact (newExecutionPlan_any_sort cluster createInitJoin impls clusterPlan clusterPlan
           cluster_planned Hnd Hperm Hsorted).
Defined.

Lemma getAction_untouched_witness :
  ("create" ∉ [("init", initAction)].*1)
  ∧ (getAction "create" (registerAll [("init", initAction)] impls).2).1
    = (getAction "create" impls).1.
Proof.
  assert ("create" ∉ [("init", initAction)].*1) as H.
  { simpl. apply not_elem_of_cons. split; [discriminate|apply not_elem_of_nil]. }
  split; [exact H|].
  exact (getAction_untouched [("init", initAction)] "create" impls H).
Defined.

Lemma registerAll_any_order_witness :
  [("create", createAction); ("join", joinAction)]
    ≡ₚ [("join", joinAction); ("create", createAction)]
  ∧ NoDup [("create", createAction); ("join", joinAction)].*1
  ∧ registerAll [("create", createAction); ("join", joinAction)] ∅
    = registerAll [("join", joinAction); ("create", createAction)] ∅.
Proof.
  assert (NoDup [("create", createAction); ("join", joinAction)].*1) as Hnd
    by (apply (bool_decide_unpack _); vm_compute; reflexivity).
  split; [apply perm_swap|]. split; [exact Hnd|].
  exact (registerAll_any_order _ _ ∅ (perm_swap _ _ _) Hnd).
Defined.

Lemma newExecutionPlan_registry_frame_witness :
  (∀ name, name ∈ createInitJoin →
     impls !! name = (registerAll [("deploy", joinAction)] impls).2 !! name)
  ∧ (newExecutionPlan cluster createInitJoin impls).1
    = (newExecutionPlan cluster createInitJoin
         (registerAll [("deploy", joinAction)] impls).2).1.
Proof.
  assert (∀ name, name ∈ createInitJoin →
            impls !! name = (registerAll [("deploy", joinAction)] impls).2 !! name) as H.
  { intros name Hname. unfold createInitJoin in Hname.
    repeat (apply elem_of_cons in Hname as [-> | Hname]);
      [reflexivity..|by apply elem_of_nil in Hname]. }
  split; [exact H|].
  exact (newExecutionPlan_registry_frame cluster createInitJoin impls _ H).
Defined.

End Runs.
